(** * hrm-profile-tool: byte-layout addressing, record decoding, disassembly

    A shallow embedding of the Go packages [profile] and [instructions] of
    clj/hrm-profile-tool, with the properties of its specification stated
    and proved (or refuted) against the embedded code.

    Conventions.
    - Go's [int] is taken at its 64-bit width (amd64/arm64 builds); [int]
      and [int64] values are [Z] and every arithmetic result goes through
      [int64_wrap].  [uint32] values are [Z] in [0, 2^32) and go through
      [uint32_wrap].
    - A Go [map] is a stdpp [gmap]; a slice written by index is a [list]
      with stdpp's [<[i:=x]>], the bounds check of the Go runtime being
      written out (a failed check is the result [None], a panic).
    - An interface value that was never assigned ([nil]) is [None]. *)

From Stdlib Require Import ZArith Lia.
From Stdlib.Strings Require Import Ascii Byte.
From stdpp Require Import base option list gmap strings.

Local Open Scope Z_scope.

(** ** Machine integers *)

Definition int64_wrap (z : Z) : Z := (z + 2 ^ 63) mod 2 ^ 64 - 2 ^ 63.
Definition uint32_wrap (z : Z) : Z := z mod 2 ^ 32.

Definition int64_add (a b : Z) : Z := int64_wrap (a + b).
Definition int64_sub (a b : Z) : Z := int64_wrap (a - b).
Definition int64_mul (a b : Z) : Z := int64_wrap (a * b).

Definition uint32_sub (a b : Z) : Z := uint32_wrap (a - b).
Definition uint32_mul (a b : Z) : Z := uint32_wrap (a * b).

Definition in_int64 (z : Z) : Prop := - 2 ^ 63 <= z < 2 ^ 63.
Definition in_uint32 (z : Z) : Prop := 0 <= z < 2 ^ 32.

(** ** Package profile: byte-layout addressing *)

Module Profile.

Definition FILE_HEADER_OFFSET : Z := 0.
Definition FILE_HEADER_SIZE : Z := 36.
Definition FLOOR_HEADER_SIZE : Z := 40.
Definition FLOOR_TAB_SIZE : Z := 46252.
Definition INSTRUCTIONS_SIZE : Z := 4100.

Definition numFloors : Z := 36.

(** The 'missing' floors (cut-scenes); the array ends with -1. *)
Definition missingFloors : list Z := [5; 15; 18; 27; 33; -1].

(** The map literal [floorToIdx], entry by entry. *)
Definition floorToIdx_entries : list (Z * Z) :=
  [(36, 39); (37, 36); (38, 40); (39, 37); (40, 41); (41, 38)].

Definition floorToIdx : gmap Z Z := list_to_map floorToIdx_entries.

(** [init()]: [for key := range floorToIdx { idxToFloor[floorToIdx[key]] = key }].
    The values of [floorToIdx] are pairwise distinct, so the result does not
    depend on Go's iteration order. *)
Definition idxToFloor : gmap Z Z :=
  foldl (fun m kv => <[kv.2 := kv.1]> m) ∅ floorToIdx_entries.

(** [for i, missingFloor = range missingFloors { if stop i missingFloor { break } }]:
    [i] is assigned at the start of each iteration and keeps its last value
    when the range is exhausted.  [idx] is the index of the head of [l], [i]
    the current value of the variable. *)
Fixpoint range_until (stop : Z -> Z -> bool) (l : list Z) (idx i : Z) : Z :=
  match l with
  | [] => i
  | missingFloor :: rest =>
      if stop idx missingFloor then idx
      else range_until stop rest (idx + 1) idx
  end.

Definition FloorToIndex (floor : Z) : Z :=
  let floor := match floorToIdx !! floor with
               | Some adjustedFloor => adjustedFloor
               | None => floor
               end in
  let i := range_until (fun _ missingFloor => floor <? missingFloor)
                       missingFloors 0 0 in
  int64_sub (int64_sub floor i) 1.

Definition IndexToFloor (index : Z) : Z :=
  let i := range_until
             (fun i missingFloor =>
                index <? int64_sub (int64_sub missingFloor 1) i)
             missingFloors 0 0 in
  let floor := int64_add (int64_add index i) 1 in
  match idxToFloor !! floor with
  | Some adjustedFloor => adjustedFloor
  | None => floor
  end.

Definition FloorStartAddr (profile floorIndex : Z) : Z :=
  int64_add (int64_add FILE_HEADER_OFFSET FILE_HEADER_SIZE)
            (int64_mul floorIndex
               (int64_add FLOOR_HEADER_SIZE (int64_mul FLOOR_TAB_SIZE 3))).

Definition TabStartAddr (profile floorIndex tab : Z) : Z :=
  int64_add (int64_add (FloorStartAddr profile floorIndex) FLOOR_HEADER_SIZE)
            (int64_mul FLOOR_TAB_SIZE tab).

(** In-game floor numbers that have data on disk, and on-disk indices. *)
Definition has_disk_data (n : Z) : bool :=
  (1 <=? n) && (n <=? 41) && negb (bool_decide (n ∈ missingFloors)).

Definition valid_index (i : Z) : bool := (0 <=? i) && (i <? numFloors).

(** [GetFloor]: [p.Floors[FloorToIndex(number)]], [Floors] being the array
    of [numFloors] floors of a profile; an index outside the array fails
    the bounds check ([None]). *)
Definition GetFloor {Floor : Type} (Floors : list Floor) (number : Z) : option Floor :=
  let index := FloorToIndex number in
  if (0 <=? index) && (index <? Z.of_nat (length Floors))
  then Floors !! Z.to_nat index
  else None.

End Profile.


(** ** Package instructions: records, labels, disassembly, comments *)

Module Instructions.

(** A decoded binary instruction: four [uint32] fields. *)
Record Instruction := mkInstruction {
  Comment : Z;
  Op : Z;
  Mode : Z;
  Arg : Z
}.

Definition OP_INBOX : Z := 0.
Definition OP_OUTBOX : Z := 1.
Definition OP_COPY_FROM : Z := 2.
Definition OP_COPY_TO : Z := 3.
Definition OP_ADD : Z := 4.
Definition OP_SUB : Z := 5.
Definition OP_BUMP_MINUS : Z := 6.
Definition OP_BUMP_PLUS : Z := 7.
Definition OP_JUMP : Z := 8.
Definition OP_JUMP_ZERO : Z := 9.
Definition OP_JUMP_NEG : Z := 10.
Definition OP_JUMP_TGT : Z := 13.
Definition MODE_DIRECT : Z := 1.
Definition MODE_INDIRECT : Z := 2.

(** *** NextLabel

    The Go loop walks the bytes of [label] from the last to the first,
    prepending one byte to [new_label] per step.  [NextLabel_loop] is that
    loop by recursion on the string: the result for [String c rest] is
    obtained from the carry and the text produced for [rest].  At the point
    of [string(digit)] the value [digit] is at most ['z'], so the conversion
    yields the single byte [digit]. *)
Definition byte_a : Z := 97.
Definition byte_z : Z := 122.

(** [string(digit)] for [0 <= digit <= 'z']: the one-byte string. *)
Definition string_of_digit (digit : Z) : string :=
  String (Ascii.ascii_of_N (Z.to_N digit)) EmptyString.

Fixpoint NextLabel_loop (label : string) : Z * string :=
  match label with
  | EmptyString => (1, EmptyString)
  | String c rest =>
      let '(carry, new_label) := NextLabel_loop rest in
      let digit := Z.of_N (Ascii.N_of_ascii c) + carry in
      if digit >? byte_z
      then (1, String.append (string_of_digit byte_a) new_label)
      else (0, String.append (string_of_digit digit) new_label)
  end.

Definition NextLabel (label : string) : string :=
  let '(carry, new_label) := NextLabel_loop label in
  if carry =? 1 then String.append "a" new_label else new_label.

(** *** MakeLabels

    [labels] has type [map[uint32]string]; the key written for slot [i] is
    [uint32(i)]. *)
Fixpoint MakeLabels_loop (instructions : list Instruction) (i : nat)
    (label : string) (labels : gmap Z string) : gmap Z string :=
  match instructions with
  | [] => labels
  | inst :: rest =>
      if Op inst =? OP_JUMP_TGT
      then MakeLabels_loop rest (S i) (NextLabel label)
             (<[uint32_wrap (Z.of_nat i) := label]> labels)
      else MakeLabels_loop rest (S i) label labels
  end.

Definition MakeLabels (instructions : list Instruction) : gmap Z string :=
  MakeLabels_loop instructions 0 "a" ∅.

(** *** Opcode tables *)
Definition InstrunctionMnemonics : gmap Z string :=
  list_to_map
    [(OP_INBOX, "INBOX"); (OP_OUTBOX, "OUTBOX"); (OP_COPY_FROM, "COPYFROM");
     (OP_COPY_TO, "COPYTO"); (OP_ADD, "ADD"); (OP_SUB, "SUB");
     (OP_BUMP_MINUS, "BUMPDN"); (OP_BUMP_PLUS, "BUMPUP"); (OP_JUMP, "JUMP");
     (OP_JUMP_ZERO, "JUMPZ"); (OP_JUMP_NEG, "JUMPN")]%string.

Definition InstructionsWithArg : gset Z :=
  list_to_set [OP_COPY_FROM; OP_COPY_TO; OP_ADD; OP_SUB; OP_BUMP_MINUS; OP_BUMP_PLUS].

Definition InstructionsWithLabel : gset Z :=
  list_to_set [OP_JUMP; OP_JUMP_ZERO; OP_JUMP_NEG].

Definition Mnemonics_Member (op : Z) : bool :=
  bool_decide (is_Some (InstrunctionMnemonics !! op)).
Definition WithArg_Member (op : Z) : bool := bool_decide (op ∈ InstructionsWithArg).
Definition WithLabel_Member (op : Z) : bool := bool_decide (op ∈ InstructionsWithLabel).

(** *** Disassembled entries

    The five implementations of [DisassembleInterface]; the embedded
    [DisassembleInstruction] of the jump and argument forms is flattened
    into their [Line] and [Op] fields. *)
Inductive DisassembleInterface :=
| DisassembleComment (Index : Z)
| DisassembleJumpTarget (Label : string) (Jumpee : Z)
| DisassembleInstruction (Line : Z) (op : Z)
| DisassembleJumpInstruction (Line : Z) (op : Z) (TargetLabel : string) (Target : Z)
| DisassembleArgInstruction (Line : Z) (op : Z) (arg : Z) (Indirect : bool).

(** The loop body of [Disassemble] for slot [i]: the slice and [instNum]
    after the iteration, or [None] when the index expression
    [disassembled[inst.Arg]] fails its bounds check.  A map lookup of an
    absent key yields the empty string. *)
Definition Disassemble_body (labels : gmap Z string) (i : nat) (inst : Instruction)
    (st : list (option DisassembleInterface) * Z)
    : option (list (option DisassembleInterface) * Z) :=
  let '(disassembled, instNum) := st in
  let opCode := Op inst in
  if Comment inst >? 0 then
    Some (<[i := Some (DisassembleComment (Op inst))]> disassembled, instNum)
  else if opCode =? OP_JUMP_TGT then
    Some (disassembled, instNum)
  else if WithLabel_Member opCode then
    let label := default EmptyString (labels !! Arg inst) in
    let disassembled :=
      <[i := Some (DisassembleJumpInstruction instNum opCode label (Arg inst))]>
        disassembled in
    if Arg inst <? Z.of_nat (length disassembled) then
      Some (<[Z.to_nat (Arg inst) :=
                Some (DisassembleJumpTarget label (Z.of_nat i))]> disassembled,
            instNum + 1)
    else None
  else if WithArg_Member opCode then
    Some (<[i := Some (DisassembleArgInstruction instNum opCode (Arg inst)
                         (Mode inst =? MODE_INDIRECT))]> disassembled,
          instNum + 1)
  else if Mnemonics_Member opCode then
    Some (<[i := Some (DisassembleInstruction instNum opCode)]> disassembled,
          instNum + 1)
  else
    Some (disassembled, instNum + 1).

(** [for i, inst := range instructions], from slot [i] on. *)
Fixpoint Disassemble_loop (labels : gmap Z string) (rest : list Instruction)
    (i : nat) (st : list (option DisassembleInterface) * Z)
    : option (list (option DisassembleInterface) * Z) :=
  match rest with
  | [] => Some st
  | inst :: rest' =>
      match Disassemble_body labels i inst st with
      | Some st' => Disassemble_loop labels rest' (S i) st'
      | None => None
      end
  end.

Definition Disassemble (instructions : list Instruction)
    : option (list (option DisassembleInterface)) :=
  let labels := MakeLabels instructions in
  let disassembled := replicate (length instructions) None in
  match Disassemble_loop labels instructions 0 (disassembled, 1) with
  | Some (disassembled, _) => Some disassembled
  | None => None
  end.

(** *** A seekable byte stream

    The [io.ReadSeeker] the decoders are given, as its contents and the
    offset of the next read.  Seeking past the end is allowed (later reads
    then fail); a relative seek to a negative offset is refused and leaves
    the offset unchanged, and [DecodeRawComments] drops the result of
    [Seek]. *)
Record Reader := mkReader {
  contents : list byte;
  offset : Z
}.

(** [io.ReadFull] of [n] bytes, as [binary.Read] performs it: all [n]
    bytes or an error. *)
Definition read_full (n : nat) (r : Reader) : option (list byte * Reader) :=
  if (0 <=? offset r) && (offset r + Z.of_nat n <=? Z.of_nat (length (contents r)))
  then Some (take n (drop (Z.to_nat (offset r)) (contents r)),
             mkReader (contents r) (offset r + Z.of_nat n))
  else None.

Definition Seek_current (r : Reader) (off : Z) : Reader :=
  if offset r + off <? 0 then r else mkReader (contents r) (offset r + off).

Definition byte_val (b : byte) : Z := Z.of_N (Byte.to_N b).

(** [binary.Read(reader, binary.LittleEndian, &x)] for [x] a [uint32]. *)
Definition read_uint32 (r : Reader) : option (Z * Reader) :=
  match read_full 4 r with
  | Some ([b0; b1; b2; b3], r') =>
      Some (byte_val b0 + 2 ^ 8 * byte_val b1 + 2 ^ 16 * byte_val b2
            + 2 ^ 24 * byte_val b3, r')
  | _ => None
  end.

(** One raw comment entry, [[4]byte]. *)
Definition RawPoint : Type := byte * byte * byte * byte.

(** [binary.Read(reader, binary.LittleEndian, &comments[commentIdx][i])]. *)
Definition read_raw_point (r : Reader) : option (RawPoint * Reader) :=
  match read_full 4 r with
  | Some ([b0; b1; b2; b3], r') => Some ((b0, b1, b2, b3), r')
  | _ => None
  end.

(** [for i = 0; i < commentLength; i++ { binary.Read(...) }]. *)
Fixpoint read_raw_points (n : nat) (r : Reader) : option (list RawPoint * Reader) :=
  match n with
  | O => Some ([], r)
  | S n' =>
      match read_raw_point r with
      | Some (p, r') =>
          match read_raw_points n' r' with
          | Some (ps, r'') => Some (p :: ps, r'')
          | None => None
          end
      | None => None
      end
  end.

(** [skip := int64(1024 - commentLength*4)], the operand being [uint32]. *)
Definition padding_skip (commentLength : Z) : Z :=
  uint32_sub 1024 (uint32_mul commentLength 4).

(** The body of the outer loop of [DecodeRawComments]: one comment record. *)
Definition DecodeRawComment (r : Reader) : option (list RawPoint * Reader) :=
  match read_uint32 r with
  | Some (commentLength, r1) =>
      match read_raw_points (Z.to_nat commentLength) r1 with
      | Some (comment, r2) =>
          let skip := padding_skip commentLength in
          Some (comment, Seek_current r2 skip)
      | None => None
      end
  | None => None
  end.

Fixpoint DecodeRawComments_loop (n : nat) (r : Reader)
    : option (list (list RawPoint) * Reader) :=
  match n with
  | O => Some ([], r)
  | S n' =>
      match DecodeRawComment r with
      | Some (c, r') =>
          match DecodeRawComments_loop n' r' with
          | Some (cs, r'') => Some (c :: cs, r'')
          | None => None
          end
      | None => None
      end
  end.

Definition DecodeRawComments (r : Reader) : option (list (list RawPoint) * Reader) :=
  match read_uint32 r with
  | Some (commentsLength, r1) => DecodeRawComments_loop (Z.to_nat commentsLength) r1
  | None => None
  end.

(** *** Comment geometry *)
Record CommentPoint := mkCommentPoint {
  X : Z;
  Y : Z
}.

Definition is_zero_point (p : RawPoint) : bool :=
  let '(b0, b1, b2, b3) := p in
  Byte.eqb b0 x00 && Byte.eqb b1 x00 && Byte.eqb b2 x00 && Byte.eqb b3 x00.

(** [binary.Read(b, binary.LittleEndian, &point)] on the four bytes of an
    entry: two little-endian [uint16]; with exactly four bytes available
    the read cannot fail. *)
Definition decode_point (p : RawPoint) : CommentPoint :=
  let '(b0, b1, b2, b3) := p in
  mkCommentPoint (byte_val b0 + 2 ^ 8 * byte_val b1)
                 (byte_val b2 + 2 ^ 8 * byte_val b3).

(** The inner loop of [DecodeComments] with its two variables, [comment]
    and [line]; the value stored in [comments[i]] is [comment]. *)
Fixpoint DecodeComment_loop (rawComment : list RawPoint)
    (comment : list (list CommentPoint)) (line : list CommentPoint)
    : list (list CommentPoint) :=
  match rawComment with
  | [] => comment
  | rawPoint :: rest =>
      if is_zero_point rawPoint
      then DecodeComment_loop rest (comment ++ [line]) []
      else DecodeComment_loop rest comment (line ++ [decode_point rawPoint])
  end.

Definition DecodeComment (rawComment : list RawPoint) : list (list CommentPoint) :=
  DecodeComment_loop rawComment [] [].

(** [DecodeComments] returns [(comments, nil)] on every input. *)
Definition DecodeComments (rawComments : list (list RawPoint))
    : option (list (list (list CommentPoint))) :=
  Some (map DecodeComment rawComments).

(** *** DecodeInstructions *)

(** [reader.Read(p)] with [len(p) = n > 0], for a reader that behaves as
    [bytes.Reader] and [os.File] do: at the end of the data no byte and
    [io.EOF]; otherwise the bytes that remain, at most [n], and no error.
    The result is the bytes delivered.  The [io.Reader] interface allows a
    reader to deliver fewer bytes than remain, as a buffered reader such as
    the one of package seekbufio does when its buffer runs out; such a
    reader is not the one modelled here, and what is proved of
    [DecodeInstructions] through [Read] holds of readers that are short only
    at the end of the data. *)
Definition Read (n : nat) (r : Reader) : option (list byte * Reader) :=
  if (0 <=? offset r) && (offset r <? Z.of_nat (length (contents r)))
  then let bs := take n (drop (Z.to_nat (offset r)) (contents r)) in
       Some (bs, mkReader (contents r) (offset r + Z.of_nat (length bs)))
  else None.

Definition byte_at (l : list byte) (k : nat) : byte := nth k l x00.

(** The little-endian [uint32] at position [k] of a byte sequence. *)
Definition uint32_at (l : list byte) (k : nat) : Z :=
  byte_val (byte_at l k) + 2 ^ 8 * byte_val (byte_at l (k + 1))
  + 2 ^ 16 * byte_val (byte_at l (k + 2)) + 2 ^ 24 * byte_val (byte_at l (k + 3)).

(** [binary.Read(bytes.NewBuffer(buffer), binary.LittleEndian, &instructions[i])]
    on the 16 bytes of [buffer]: four little-endian [uint32]. *)
Definition decode_instruction (buffer : list byte) : Instruction :=
  mkInstruction (uint32_at buffer 0) (uint32_at buffer 4)
                (uint32_at buffer 8) (uint32_at buffer 12).

(** The loop of [DecodeInstructions].  [buffer] is allocated once, before
    the loop; a [Read] overwrites its first bytes with the bytes delivered,
    and the count of delivered bytes is not looked at. *)
Fixpoint DecodeInstructions_loop (n : nat) (buffer : list byte) (r : Reader)
    : option (list Instruction * Reader) :=
  match n with
  | O => Some ([], r)
  | S n' =>
      match Read 16 r with
      | Some (bs, r') =>
          let buffer := bs ++ drop (length bs) buffer in
          match DecodeInstructions_loop n' buffer r' with
          | Some (instructions, r'') =>
              Some (decode_instruction buffer :: instructions, r'')
          | None => None
          end
      | None => None
      end
  end.

Definition DecodeInstructions (r : Reader) : option (list Instruction * Reader) :=
  match read_uint32 r with
  | Some (length, r1) =>
      DecodeInstructions_loop (Z.to_nat length) (replicate 16 x00) r1
  | None => None
  end.

End Instructions.

(** ** Package render *)

Module Render.
Import Instructions.

(** [absInt]: [y := n >> strconv.IntSize; return (n ^ y) - y]. *)
Definition absInt (n : Z) : Z :=
  let y := Z.shiftr n 64 in
  int64_sub (Z.lxor n y) y.

(** The byte of value [z mod 256]. *)
Definition byte_of (z : Z) : byte :=
  match Byte.of_N (Z.to_N (z mod 256)) with
  | Some b => b
  | None => x00
  end.

(** [binary.Write(&dataBuffer, binary.LittleEndian, v)] for a [uint32]. *)
Definition uint32_bytes (v : Z) : list byte :=
  [byte_of v; byte_of (v / 2 ^ 8); byte_of (v / 2 ^ 16); byte_of (v / 2 ^ 24)].

Definition point_bytes (p : RawPoint) : list byte :=
  let '(b0, b1, b2, b3) := p in [b0; b1; b2; b3].

(** The bytes that [RenderCommentsText] writes to the compressor for one
    comment: the count, the entries, and zero entries for [j] from the last
    index of the range loop ([0] for an empty comment) while
    [j < 1024/4-1]. *)
Definition comment_payload (comment : list RawPoint) : list byte :=
  let i := Z.of_nat (length comment - 1) in
  uint32_bytes (uint32_wrap (Z.of_nat (length comment)))
  ++ concat (map point_bytes comment)
  ++ concat (replicate (Z.to_nat (1024 / 4 - 1 - i)) [x00; x00; x00; x00]).

End Render.

(** ** Package text *)

Module Text.

Definition newline : Z := 10.

(** The loop of [Wrap] over the runes of [str], with its variables [pos]
    and [builder].  A text is the sequence of runes that [range] yields for
    the string, and [builder] the sequence of runes given to [WriteRune]:
    for a string that is valid UTF-8 these are the string's own characters,
    and encoding them gives the string back; a byte that is not part of a
    valid encoding is yielded as U+FFFD and written back as the three bytes
    of that rune, so the bytes of such a string are not what the model
    speaks of. *)
Fixpoint Wrap_loop (str : list Z) (width pos : Z) (builder : list Z) : list Z :=
  match str with
  | [] => builder
  | char :: rest =>
      if char =? newline then
        Wrap_loop rest width (0 + 1) (builder ++ [char])
      else if pos >? width then
        Wrap_loop rest width (1 + 1) ((builder ++ [newline]) ++ [char])
      else
        Wrap_loop rest width (pos + 1) (builder ++ [char])
  end.

(** [Wrap], on a string given as its sequence of runes. *)
Definition Wrap (str : list Z) (width : Z) : list Z := Wrap_loop str width 0 [].

End Text.

(** ** Package profile: decoding a whole profile *)

Module ProfileDecode.
Import Profile Instructions.

(** A decoded code tab and a decoded floor.  [Decode] leaves the fields
    [Offset] and [Completed] at their zero values. *)
Record Tab := mkTab {
  Tab_Offset : Z;
  Code : list (option DisassembleInterface);
  RawComments : list (list RawPoint);
  Comments : list (list (list CommentPoint))
}.

Record Floor := mkFloor {
  Floor_Offset : Z;
  Completed : bool;
  SizeChallenge : Z;
  SpeedChallenge : Z;
  Tabs : list Tab
}.


(** The result of a call that can return a value, return an error or panic. *)
Inductive outcome (A : Type) :=
| Ok (a : A)
| Failed
| Panicked.
Arguments Ok {A} a.
Arguments Failed {A}.
Arguments Panicked {A}.


(** [reader.Seek(off, io.SeekStart)], its result dropped. *)
Definition Seek_start (r : Reader) (off : Z) : Reader :=
  if off <? 0 then r else mkReader (contents r) off.


(** The body of the loop over the tabs of a floor. *)
Definition Decode_tab (reader : Reader) (floor_start tab : Z) : outcome (Tab * Reader) :=
  let tab_start :=
    int64_add (int64_add floor_start FLOOR_HEADER_SIZE) (int64_mul FLOOR_TAB_SIZE tab) in
  let reader := Seek_start reader tab_start in
  match DecodeInstructions reader with
  | None => Failed
  | Some (instructionList, reader) =>
      match Disassemble instructionList with
      | None => Panicked
      | Some code =>
          let reader := Seek_start reader (int64_add tab_start INSTRUCTIONS_SIZE) in
          match DecodeRawComments reader with
          | None => Failed
          | Some (rawComments, reader) =>
              match DecodeComments rawComments with
              | None => Failed
              | Some comments => Ok (mkTab 0 code rawComments comments, reader)
              end
          end
      end
  end.





End ProfileDecode.

(** ** Vocabulary of the properties *)

Module Props.
Import Profile Instructions.

(** Checking a boolean predicate on every integer of a bounded range. *)
Definition check_range (P : Z -> bool) (lo : Z) (k : nat) : bool :=
  forallb (fun i => P (lo + Z.of_nat i)) (seq 0 k).

(** The offset of a tab as the specification writes it, over the integers. *)
Definition tab_offset (i t : Z) : Z := 36 + i * (40 + 3 * 46252) + 40 + t * 46252.

(** The fields of a decoded record are [uint32] values. *)
Definition is_uint32 (z : Z) : bool := (0 <=? z) && (z <? 2 ^ 32).

Definition well_typed (inst : Instruction) : bool :=
  is_uint32 (Comment inst) && is_uint32 (Op inst)
  && is_uint32 (Mode inst) && is_uint32 (Arg inst).

(** A jump-family instruction: comment flag zero, opcode JUMP, JUMPZ or JUMPN. *)
Definition is_jump (inst : Instruction) : bool :=
  (Comment inst =? 0)
  && ((Op inst =? OP_JUMP) || (Op inst =? OP_JUMP_ZERO) || (Op inst =? OP_JUMP_NEG)).

(** A slot that the emission pass gives a line number: comment flag zero
    and a mnemonic opcode. *)
Definition emits_line (inst : Instruction) : bool :=
  (Comment inst =? 0) && (0 <=? Op inst) && (Op inst <=? OP_JUMP_NEG).

(** A slot with an opcode that [Disassemble] has a case for. *)
Definition known_slot (inst : Instruction) : bool :=
  negb (Comment inst =? 0) || (Op inst =? OP_JUMP_TGT) || emits_line inst.

(** Every jump-family instruction has an argument below the length. *)
Definition jumps_in_range (instructions : list Instruction) : bool :=
  forallb (fun inst => implb (is_jump inst)
                         (Arg inst <? Z.of_nat (length instructions)))
          instructions.

(** Every jump-family instruction addresses a slot of the sequence that is
    either after the jump or not a line-carrying slot.  [i] is the index of
    the head of [rest] in [all]. *)
Fixpoint targets_ok_from (all rest : list Instruction) (i : nat) : bool :=
  match rest with
  | [] => true
  | inst :: rest' =>
      (if is_jump inst then
         match all !! Z.to_nat (Arg inst) with
         | Some tgt => (i <? Z.to_nat (Arg inst))%nat || negb (emits_line tgt)
         | None => false
         end
       else true)
      && targets_ok_from all rest' (S i)
  end.

Definition targets_ok (instructions : list Instruction) : bool :=
  targets_ok_from instructions instructions 0.

(** The line number carried by an output entry, if any. *)
Definition line_of (e : option DisassembleInterface) : option Z :=
  match e with
  | Some (DisassembleInstruction line _) => Some line
  | Some (DisassembleJumpInstruction line _ _ _) => Some line
  | Some (DisassembleArgInstruction line _ _ _) => Some line
  | _ => None
  end.

(** The line numbers of an output, in output order. *)
Definition line_numbers (out : list (option DisassembleInterface)) : list Z :=
  omap line_of out.

(** The run [1; 2; ...; k]. *)
Definition run_from_1 (k : nat) : list Z := Z.of_nat <$> seq 1 k.

(** The state of the emission loop of [Disassemble] after its first [k]
    iterations. *)
Definition Disassemble_prefix (instructions : list Instruction) (k : nat)
    : option (list (option DisassembleInterface) * Z) :=
  Disassemble_loop (MakeLabels instructions) (take k instructions) 0
    (replicate (length instructions) None, 1).

(** The invariant of the emission loop before the iteration for slot [i],
    on inputs whose jumps address slots that carry no line: the output has
    the input's length, the lines written so far are [1 .. instNum-1] in
    slot order and as many as the line-carrying slots passed, and only
    line-carrying slots already passed hold an entry with a line. *)
Definition emission_inv (instructions : list Instruction) (i : nat)
    (st : list (option DisassembleInterface) * Z) : Prop :=
  length st.1 = length instructions /\
  Z.of_nat (length (filter (fun inst => emits_line inst = true) (take i instructions)))
    = st.2 - 1 /\
  line_numbers st.1 = run_from_1 (Z.to_nat (st.2 - 1)) /\
  forall p e, st.1 !! p = Some e -> is_Some (line_of e) ->
    (p < i)%nat /\ exists inst, instructions !! p = Some inst /\ emits_line inst = true.

(** What [targets_ok] asks of the slot [i]. *)
Definition target_ok_at (instructions : list Instruction) (i : nat)
    (inst : Instruction) : Prop :=
  is_jump inst = true ->
  exists tgt, instructions !! Z.to_nat (Arg inst) = Some tgt /\
    ((i < Z.to_nat (Arg inst))%nat \/ emits_line tgt = false).

(** The [n]-th label of the sequence that starts at ["a"]. *)
Definition nth_label (n : nat) : string := Nat.iter n NextLabel "a"%string.

(** A lowercase letter, and its rank 1..26. *)
Definition is_lower (c : Ascii.ascii) : bool :=
  (byte_a <=? Z.of_N (Ascii.N_of_ascii c)) && (Z.of_N (Ascii.N_of_ascii c) <=? byte_z).

Fixpoint all_lower (s : string) : bool :=
  match s with
  | EmptyString => true
  | String c rest => is_lower c && all_lower rest
  end.

(** The value of a label as a bijective base-26 numeral: "a" is 1, "z" is
    26, "aa" is 27, and so on. *)
Fixpoint label_value (s : string) : Z :=
  match s with
  | EmptyString => 0
  | String c rest =>
      (Z.of_N (Ascii.N_of_ascii c) - 96) * 26 ^ Z.of_nat (String.length rest)
      + label_value rest
  end.

(** The number of JUMP_TGT slots of a sequence. *)
Definition target_count (instructions : list Instruction) : nat :=
  length (filter (fun inst => Op inst = OP_JUMP_TGT) instructions).

(** The label pre-pass as the specification words it: scan the jump-family
    opcodes left to right and give the argument of each, unless it already
    has one, the next unused label. *)
Fixpoint labels_by_discovery_loop (instructions : list Instruction)
    (label : string) (labels : gmap Z string) : gmap Z string :=
  match instructions with
  | [] => labels
  | inst :: rest =>
      if (Op inst =? OP_JUMP) || (Op inst =? OP_JUMP_ZERO) || (Op inst =? OP_JUMP_NEG)
      then match labels !! Arg inst with
           | Some _ => labels_by_discovery_loop rest label labels
           | None => labels_by_discovery_loop rest (NextLabel label)
                       (<[Arg inst := label]> labels)
           end
      else labels_by_discovery_loop rest label labels
  end.

Definition labels_by_discovery (instructions : list Instruction) : gmap Z string :=
  labels_by_discovery_loop instructions "a" ∅.

(** The all-zero sentinel entry and a raw comment made of terminated strokes. *)
Definition zero_point : RawPoint := (x00, x00, x00, x00).

Definition terminated (strokes : list (list RawPoint)) : list RawPoint :=
  concat (map (fun s => s ++ [zero_point]) strokes).

Definition no_sentinel (s : list RawPoint) : bool :=
  forallb (fun p => negb (is_zero_point p)) s.

(** Sample data of the properties. *)
Definition pt (b : byte) : RawPoint := (b, x00, b, x00).
Definition sample_raw : list RawPoint := [pt x01; pt x02; zero_point; pt x05].

(** A comment block of one comment that declares two entries: the count of
    comments, the count of entries, the two entries and 1016 further bytes. *)
Definition sample_block : list byte :=
  [x01; x00; x00; x00; x02; x00; x00; x00;
   x01; x00; x01; x00; x02; x00; x02; x00] ++ replicate 1016 x00.

(** *** Vocabulary of the further properties *)

(** A slot whose iteration reaches [instNum++]: no comment flag and an
    opcode other than JUMP_TGT. *)
Definition advances (inst : Instruction) : bool :=
  negb (Comment inst >? 0) && negb (Op inst =? OP_JUMP_TGT).

(** The value of [instNum] when the loop of [Disassemble] reaches slot [i]. *)
Definition line_at (instructions : list Instruction) (i : nat) : Z :=
  1 + Z.of_nat (length (filter (fun inst => advances inst = true) (take i instructions))).

(** The entry that the iteration for a slot stores at the slot's own index,
    if it stores one, [line] being the value of [instNum]. *)
Definition own_entry (labels : gmap Z string) (line : Z) (inst : Instruction)
    : option DisassembleInterface :=
  if Comment inst >? 0 then Some (DisassembleComment (Op inst))
  else if Op inst =? OP_JUMP_TGT then None
  else if WithLabel_Member (Op inst) then
    Some (DisassembleJumpInstruction line (Op inst)
            (default EmptyString (labels !! Arg inst)) (Arg inst))
  else if WithArg_Member (Op inst) then
    Some (DisassembleArgInstruction line (Op inst) (Arg inst)
            (Mode inst =? MODE_INDIRECT))
  else if Mnemonics_Member (Op inst) then
    Some (DisassembleInstruction line (Op inst))
  else None.

(** A slot whose iteration stores no entry at its own index: no comment
    flag, and JUMP_TGT or an opcode without a mnemonic. *)
Definition silent (inst : Instruction) : bool :=
  negb (Comment inst >? 0)
  && ((Op inst =? OP_JUMP_TGT) || negb (Mnemonics_Member (Op inst))).

(** An output entry at slot [p] is accounted for by the input: it is the
    own entry of slot [p], or the JumpTarget written by a jump-family
    instruction whose argument is [p]. *)
Definition justified (instructions : list Instruction) (p : nat)
    (e : DisassembleInterface) : Prop :=
  (exists inst, instructions !! p = Some inst /\
     own_entry (MakeLabels instructions) (line_at instructions p) inst = Some e) \/
  (exists j inst, instructions !! j = Some inst /\ is_jump inst = true /\
     Z.to_nat (Arg inst) = p /\
     e = DisassembleJumpTarget
           (default EmptyString (MakeLabels instructions !! Arg inst)) (Z.of_nat j)).

(** The instruction record stored at byte position [p] of a byte
    sequence: four little-endian words. *)
Definition record_at (c : list byte) (p : nat) : Instruction :=
  mkInstruction (uint32_at c p) (uint32_at c (p + 4))
                (uint32_at c (p + 8)) (uint32_at c (p + 12)).

(** An instruction block that declares two records, JUMP 1 and OUTBOX, and
    the same block cut off after the first five bytes of the second record. *)
Definition sample_tab : list byte :=
  [x02; x00; x00; x00;
   x00; x00; x00; x00; x08; x00; x00; x00; x01; x00; x00; x00; x01; x00; x00; x00;
   x00; x00; x00; x00; x01; x00; x00; x00; x00; x00; x00; x00; x00; x00; x00; x00].

Definition sample_tab_cut : list byte := take 25 sample_tab.

(** The number of sentinel entries of a raw comment. *)
Definition sentinel_count (rawComment : list RawPoint) : nat :=
  length (filter (fun p => is_zero_point p = true) rawComment).

(** A point that a comment can hold: two 16-bit coordinates, not both 0. *)
Definition proper_point (p : CommentPoint) : Prop :=
  0 <= X p < 2 ^ 16 /\ 0 <= Y p < 2 ^ 16 /\ ~ (X p = 0 /\ Y p = 0).

(** The lines of a text: the runs between newline runes, [cur] being the
    line in progress. *)
Fixpoint lines_from (cur : list Z) (l : list Z) : list (list Z) :=
  match l with
  | [] => [cur]
  | c :: rest =>
      if c =? Text.newline then cur :: lines_from [] rest
      else lines_from (cur ++ [c]) rest
  end.

Definition lines (l : list Z) : list (list Z) := lines_from [] l.

(** The runes of a text other than the newlines. *)
Definition visible (l : list Z) : list Z := filter (fun c => c <> Text.newline) l.

(** The runes of "ab cd", of "abcdefg" and of "ab\ncd". *)
Definition sample_text : list Z := [97; 98; 32; 99; 100].
Definition sample_long : list Z := [97; 98; 99; 100; 101; 102; 103].
Definition sample_lines : list Z := [97; 98; 10; 99; 100].

(** The start of a profile file of zero bytes: the file header, the header
    of the first floor, the instruction block of its first tab and the count
    of comments of that tab. *)
Definition sample_profile : list byte := replicate 4180 x00.

End Props.

(** * Properties *)

(** ** Machine integers *)

Lemma int64_wrap_id z : in_int64 z -> int64_wrap z = z.
Proof.
  unfold in_int64, int64_wrap. intros Hz.
  rewrite Z.mod_small by lia. lia.
Qed.

Lemma int64_wrap_range z : in_int64 (int64_wrap z).
Proof.
  unfold in_int64, int64_wrap.
  pose proof (Z.mod_pos_bound (z + 2 ^ 63) (2 ^ 64) ltac:(lia)). lia.
Qed.

Lemma int64_wrap_add_l a b : int64_wrap (int64_wrap a + b) = int64_wrap (a + b).
Proof.
  unfold int64_wrap. f_equal.
  replace ((a + 2 ^ 63) mod 2 ^ 64 - 2 ^ 63 + b + 2 ^ 63)
    with ((a + 2 ^ 63) mod 2 ^ 64 + b) by lia.
  rewrite Zplus_mod_idemp_l. f_equal. lia.
Qed.

Lemma int64_wrap_add_r a b : int64_wrap (a + int64_wrap b) = int64_wrap (a + b).
Proof. rewrite (Z.add_comm a), int64_wrap_add_l. f_equal. lia. Qed.

Lemma uint32_wrap_range z : in_uint32 (uint32_wrap z).
Proof. unfold in_uint32, uint32_wrap. apply Z.mod_pos_bound. lia. Qed.


(** ** Properties of the addressing functions *)

Import Props.

Lemma check_range_sound (P : Z -> bool) (lo : Z) (k : nat) :
  check_range P lo k = true ->
  forall n, lo <= n < lo + Z.of_nat k -> P n = true.
Proof.
  unfold check_range. rewrite forallb_forall. intros Hall n Hn.
  specialize (Hall (Z.to_nat (n - lo))).
  replace (lo + Z.of_nat (Z.to_nat (n - lo))) with n in Hall by lia.
  apply Hall, in_seq. lia.
Qed.

Section Addressing.
Import Profile Props.

Lemma has_disk_data_range n : has_disk_data n = true -> 1 <= n < 1 + Z.of_nat 41.
Proof. unfold has_disk_data. intros H. repeat (apply andb_prop in H as [H ?]). lia. Qed.

Lemma valid_index_range i : valid_index i = true -> 0 <= i < 0 + Z.of_nat 36.
Proof. unfold valid_index, numFloors. intros H. apply andb_prop in H as [? ?]. lia. Qed.

(** C5. For every in-game floor number [n] that has on-disk data ([n] in
    1..41 and not a cut-scene floor), [FloorToIndex n] is a valid on-disk
    index and [IndexToFloor (FloorToIndex n) = n]; conversely, for every
    valid on-disk index [i] (0..35), [IndexToFloor i] is a floor with
    on-disk data and [FloorToIndex (IndexToFloor i) = i].  The two functions
    are mutually inverse between valid floors and valid indices. *)
Theorem floor_index_round_trip :
  (forall n, has_disk_data n = true ->
     valid_index (FloorToIndex n) = true /\ IndexToFloor (FloorToIndex n) = n)
  /\
  (forall i, valid_index i = true ->
     has_disk_data (IndexToFloor i) = true /\ FloorToIndex (IndexToFloor i) = i).
Proof.
  split.
  - intros n Hn.
    pose proof (check_range_sound
      (fun n => implb (has_disk_data n)
                  (valid_index (FloorToIndex n) && (IndexToFloor (FloorToIndex n) =? n)))
      1 41 ltac:(vm_compute; reflexivity) n (has_disk_data_range n Hn)) as H.
    cbv beta in H. rewrite Hn in H. simpl in H.
    apply andb_prop in H as [H1 H2]. split; [exact H1 | lia].
  - intros i Hi.
    pose proof (check_range_sound
      (fun i => implb (valid_index i)
                  (has_disk_data (IndexToFloor i) && (FloorToIndex (IndexToFloor i) =? i)))
      0 36 ltac:(vm_compute; reflexivity) i (valid_index_range i Hi)) as H.
    cbv beta in H. rewrite Hi in H. simpl in H.
    apply andb_prop in H as [H1 H2]. split; [exact H1 | lia].
Qed.

Lemma floor_index_round_trip_witness :
  (has_disk_data 37 = true /\
   valid_index (FloorToIndex 37) = true /\ IndexToFloor (FloorToIndex 37) = 37)
  /\
  (valid_index 30 = true /\
   has_disk_data (IndexToFloor 30) = true /\ FloorToIndex (IndexToFloor 30) = 30).
Proof.
  split.
  - split; [reflexivity |].
    apply (proj1 floor_index_round_trip 37). reflexivity.
  - split; [reflexivity |].
    apply (proj2 floor_index_round_trip 30). reflexivity.
Defined.

(** C8. For every floor index [i] and tab index [t], [TabStartAddr] returns
    [36 + i*(40 + 3*46252) + 40 + t*46252] computed in Go's [int]/[int64]
    arithmetic: the result is that value reduced to the 64-bit signed range,
    hence exactly that value whenever it fits the range (as it does for all
    floor indices and tabs of a profile).  The constants are
    [FILE_HEADER_SIZE = 36], [FLOOR_HEADER_SIZE = 40], [FLOOR_TAB_SIZE = 46252]. *)
Theorem TabStartAddr_formula (profile i t : Z) :
  FILE_HEADER_SIZE = 36 /\ FLOOR_HEADER_SIZE = 40 /\ FLOOR_TAB_SIZE = 46252 /\
  FloorStartAddr profile i
    = int64_wrap (FILE_HEADER_SIZE + i * (FLOOR_HEADER_SIZE + 3 * FLOOR_TAB_SIZE)) /\
  TabStartAddr profile i t = int64_wrap (tab_offset i t) /\
  (in_int64 (tab_offset i t) ->
   TabStartAddr profile i t = 36 + i * (40 + 3 * 46252) + 40 + t * 46252).
Proof.
  assert (Hfloor : FloorStartAddr profile i = int64_wrap (36 + i * 138796)).
  { unfold FloorStartAddr, int64_add, int64_mul.
    change (int64_wrap (FILE_HEADER_OFFSET + FILE_HEADER_SIZE)) with 36.
    change (int64_wrap (FLOOR_HEADER_SIZE + int64_wrap (FLOOR_TAB_SIZE * 3)))
      with 138796.
    apply int64_wrap_add_r. }
  assert (Htab : TabStartAddr profile i t = int64_wrap (tab_offset i t)).
  { unfold TabStartAddr. rewrite Hfloor.
    unfold int64_add, int64_mul, FLOOR_HEADER_SIZE, FLOOR_TAB_SIZE, tab_offset.
    rewrite int64_wrap_add_r, int64_wrap_add_l, <- Z.add_assoc, int64_wrap_add_l.
    f_equal. lia. }
  repeat split; try reflexivity.
  - rewrite Hfloor. reflexivity.
  - exact Htab.
  - intros Hfit. rewrite Htab, int64_wrap_id by exact Hfit. reflexivity.
Qed.

Lemma TabStartAddr_formula_witness :
  in_int64 (tab_offset 35 2) /\
  TabStartAddr 1 35 2 = 36 + 35 * (40 + 3 * 46252) + 40 + 2 * 46252.
Proof.
  assert (H : in_int64 (tab_offset 35 2)) by (unfold in_int64; vm_compute; split; [discriminate | reflexivity]).
  split; [exact H |].
  apply (proj2 (proj2 (proj2 (proj2 (proj2 (TabStartAddr_formula 1 35 2)))))).
  exact H.
Defined.

(** Every tab of every floor of a profile lies in the exact range. *)
Lemma tab_offset_fits i t :
  0 <= i < numFloors -> 0 <= t < 3 -> in_int64 (tab_offset i t).
Proof.
  unfold numFloors, in_int64, tab_offset.
  change (2 ^ 63) with 9223372036854775808. lia.
Qed.

End Addressing.

(** ** Opcode tables *)

Section Tables.
Import Instructions Props.

Lemma WithLabel_Member_spec op :
  WithLabel_Member op = (op =? OP_JUMP) || (op =? OP_JUMP_ZERO) || (op =? OP_JUMP_NEG).
Proof.
  unfold WithLabel_Member, InstructionsWithLabel, OP_JUMP, OP_JUMP_ZERO, OP_JUMP_NEG.
  destruct (bool_decide_reflect (op ∈ (list_to_set [8; 9; 10] : gset Z))) as [H|H];
    set_unfold; symmetry.
  - destruct H as [-> | [-> | [-> | []]]]; reflexivity.
  - apply orb_false_iff. split; [apply orb_false_iff; split |]; apply Z.eqb_neq; intros ->;
      apply H; auto.
Qed.

Lemma WithArg_Member_spec op :
  WithArg_Member op = (OP_COPY_FROM <=? op) && (op <=? OP_BUMP_PLUS).
Proof.
  unfold WithArg_Member, InstructionsWithArg, OP_COPY_FROM, OP_COPY_TO, OP_ADD, OP_SUB,
    OP_BUMP_MINUS, OP_BUMP_PLUS.
  destruct (bool_decide_reflect (op ∈ (list_to_set [2; 3; 4; 5; 6; 7] : gset Z))) as [H|H];
    set_unfold; symmetry.
  - apply andb_true_iff. lia.
  - apply andb_false_iff. rewrite Z.leb_gt, Z.leb_gt.
    destruct (decide (2 <= op <= 7)); [|lia]. exfalso. apply H. lia.
Qed.

Lemma Mnemonics_Member_spec op :
  Mnemonics_Member op = (OP_INBOX <=? op) && (op <=? OP_JUMP_NEG).
Proof.
  unfold Mnemonics_Member, OP_INBOX, OP_JUMP_NEG.
  destruct (decide (0 <= op <= 10)) as [Hin|Hout].
  - assert (Hc : op = 0 \/ op = 1 \/ op = 2 \/ op = 3 \/ op = 4 \/ op = 5 \/ op = 6
                 \/ op = 7 \/ op = 8 \/ op = 9 \/ op = 10) by lia.
    repeat (destruct Hc as [-> | Hc]); try subst op; reflexivity.
  - transitivity false; [| symmetry; apply andb_false_iff; lia].
    apply bool_decide_eq_false. intros [v Hv].
    unfold InstrunctionMnemonics in Hv.
    apply elem_of_list_to_map_2 in Hv.
    apply (list_elem_of_fmap_2 fst) in Hv. simpl in Hv.
    unfold OP_INBOX, OP_OUTBOX, OP_COPY_FROM, OP_COPY_TO, OP_ADD, OP_SUB, OP_BUMP_MINUS,
      OP_BUMP_PLUS, OP_JUMP, OP_JUMP_ZERO, OP_JUMP_NEG in Hv.
    set_unfold. lia.
Qed.

End Tables.

(** ** The emission loop of Disassemble *)

Section EmissionLoop.
Import Instructions Props.

Implicit Types (inst : Instruction) (dis : list (option DisassembleInterface)).

Lemma is_uint32_spec z : is_uint32 z = true <-> in_uint32 z.
Proof. unfold is_uint32, in_uint32. rewrite andb_true_iff. lia. Qed.

Lemma well_typed_spec inst :
  well_typed inst = true ->
  0 <= Comment inst /\ 0 <= Op inst /\ 0 <= Mode inst /\ 0 <= Arg inst.
Proof.
  unfold well_typed. rewrite !andb_true_iff, !is_uint32_spec. unfold in_uint32. lia.
Qed.

(** The loop body with the table lookups replaced by comparisons. *)
Lemma Disassemble_body_eq labels i inst dis n :
  Disassemble_body labels i inst (dis, n) =
    if Comment inst >? 0 then
      Some (<[i := Some (DisassembleComment (Op inst))]> dis, n)
    else if Op inst =? OP_JUMP_TGT then Some (dis, n)
    else if (Op inst =? OP_JUMP) || (Op inst =? OP_JUMP_ZERO) || (Op inst =? OP_JUMP_NEG) then
      let label := default EmptyString (labels !! Arg inst) in
      if Arg inst <? Z.of_nat (length dis) then
        Some (<[Z.to_nat (Arg inst) := Some (DisassembleJumpTarget label (Z.of_nat i))]>
                (<[i := Some (DisassembleJumpInstruction n (Op inst) label (Arg inst))]> dis),
              n + 1)
      else None
    else if (OP_COPY_FROM <=? Op inst) && (Op inst <=? OP_BUMP_PLUS) then
      Some (<[i := Some (DisassembleArgInstruction n (Op inst) (Arg inst)
                           (Mode inst =? MODE_INDIRECT))]> dis, n + 1)
    else if (OP_INBOX <=? Op inst) && (Op inst <=? OP_JUMP_NEG) then
      Some (<[i := Some (DisassembleInstruction n (Op inst))]> dis, n + 1)
    else Some (dis, n + 1).
Proof.
  unfold Disassemble_body.
  rewrite WithLabel_Member_spec, WithArg_Member_spec, Mnemonics_Member_spec.
  cbv zeta. rewrite length_insert. reflexivity.
Qed.

Lemma is_jump_false_cases inst :
  0 <= Comment inst -> is_jump inst = false ->
  (Comment inst >? 0) = true \/
  ((Op inst =? OP_JUMP) || (Op inst =? OP_JUMP_ZERO) || (Op inst =? OP_JUMP_NEG)) = false.
Proof.
  unfold is_jump. intros Hc H. apply andb_false_iff in H as [H|H]; [left | right; exact H].
  apply Z.eqb_neq in H. apply Z.gtb_lt. lia.
Qed.

Lemma is_jump_true_cases inst :
  is_jump inst = true ->
  (Comment inst >? 0) = false /\ (Op inst =? OP_JUMP_TGT) = false /\
  ((Op inst =? OP_JUMP) || (Op inst =? OP_JUMP_ZERO) || (Op inst =? OP_JUMP_NEG)) = true.
Proof.
  unfold is_jump. intros H. apply andb_true_iff in H as [Hc Hop].
  apply Z.eqb_eq in Hc. split; [| split; [| exact Hop]].
  - rewrite Hc. reflexivity.
  - apply Z.eqb_neq. intros Heq. rewrite Heq in Hop. discriminate.
Qed.

(** An iteration never changes the length of the output slice. *)
Lemma Disassemble_body_length labels i inst dis n dis' n' :
  Disassemble_body labels i inst (dis, n) = Some (dis', n') ->
  length dis' = length dis.
Proof.
  rewrite Disassemble_body_eq. cbv zeta.
  repeat case_match; intros [= <- <-]; rewrite ?length_insert; reflexivity.
Qed.

(** An iteration panics exactly at a jump whose argument is not an index. *)
Lemma Disassemble_body_jump labels i inst dis n :
  is_jump inst = true ->
  Disassemble_body labels i inst (dis, n) =
    if Arg inst <? Z.of_nat (length dis) then
      Some (<[Z.to_nat (Arg inst) :=
                Some (DisassembleJumpTarget (default EmptyString (labels !! Arg inst))
                        (Z.of_nat i))]>
              (<[i := Some (DisassembleJumpInstruction n (Op inst)
                              (default EmptyString (labels !! Arg inst)) (Arg inst))]> dis),
            n + 1)
    else None.
Proof.
  intros (Hc & Ht & Hj)%is_jump_true_cases.
  rewrite Disassemble_body_eq, Hc, Ht, Hj. reflexivity.
Qed.

Lemma Disassemble_body_other labels i inst dis n :
  0 <= Comment inst -> is_jump inst = false ->
  is_Some (Disassemble_body labels i inst (dis, n)).
Proof.
  intros Hc Hj. rewrite Disassemble_body_eq.
  destruct (is_jump_false_cases inst Hc Hj) as [-> | Hop]; [eauto |].
  rewrite Hop. repeat case_match; eauto.
Qed.

Lemma Disassemble_loop_length labels rest : forall i dis n dis' n',
  Disassemble_loop labels rest i (dis, n) = Some (dis', n') ->
  length dis' = length dis.
Proof.
  induction rest as [| inst rest IH]; cbn [Disassemble_loop forallb]; intros i dis n dis' n' H.
  - by inversion H.
  - destruct (Disassemble_body labels i inst (dis, n)) as [[dis1 n1]|] eqn:Hb; [| done].
    apply IH in H. apply Disassemble_body_length in Hb. congruence.
Qed.

Lemma Disassemble_loop_success labels rest : forall i dis n,
  forallb well_typed rest = true ->
  forallb (fun inst => implb (is_jump inst) (Arg inst <? Z.of_nat (length dis))) rest = true ->
  is_Some (Disassemble_loop labels rest i (dis, n)).
Proof.
  induction rest as [| inst rest IH]; cbn [Disassemble_loop forallb]; intros i dis n Hty Hin; [eauto |].
  apply andb_true_iff in Hty as [Hty1 Hty], Hin as [Hin1 Hin].
  apply well_typed_spec in Hty1 as (Hc & _).
  assert (Hb : is_Some (Disassemble_body labels i inst (dis, n))).
  { destruct (is_jump inst) eqn:Hj.
    - rewrite Disassemble_body_jump by exact Hj. simpl in Hin1. rewrite Hin1. eauto.
    - by apply Disassemble_body_other. }
  destruct Hb as [[dis1 n1] Hb]. rewrite Hb.
  apply IH; [exact Hty |].
  apply Disassemble_body_length in Hb. rewrite Hb. exact Hin.
Qed.

Lemma Disassemble_loop_panic labels rest : forall i dis n,
  forallb (fun inst => implb (is_jump inst) (Arg inst <? Z.of_nat (length dis))) rest = false ->
  Disassemble_loop labels rest i (dis, n) = None.
Proof.
  induction rest as [| inst rest IH]; cbn [Disassemble_loop forallb]; intros i dis n Hin; [done |].
  destruct (Disassemble_body labels i inst (dis, n)) as [[dis1 n1]|] eqn:Hb; [| done].
  apply andb_false_iff in Hin as [Hin | Hin].
  - destruct (is_jump inst) eqn:Hj; [| done]. simpl in Hin.
    rewrite Disassemble_body_jump, Hin in Hb by exact Hj. done.
  - apply IH. apply Disassemble_body_length in Hb. rewrite Hb. exact Hin.
Qed.

Lemma Disassemble_length_of instructions out :
  Disassemble instructions = Some out -> length out = length instructions.
Proof.
  unfold Disassemble.
  destruct (Disassemble_loop _ _ _ _) as [[dis n]|] eqn:Hl; [| done].
  intros [= <-]. apply Disassemble_loop_length in Hl.
  rewrite Hl, length_replicate. reflexivity.
Qed.

Lemma Disassemble_success instructions :
  forallb well_typed instructions = true ->
  jumps_in_range instructions = true ->
  is_Some (Disassemble instructions).
Proof.
  intros Hty Hin. unfold Disassemble.
  destruct (Disassemble_loop_success (MakeLabels instructions) instructions 0
              (replicate (length instructions) None) 1 Hty) as [[dis n] Hl].
  - rewrite length_replicate. exact Hin.
  - rewrite Hl. eauto.
Qed.

Lemma Disassemble_panic instructions :
  jumps_in_range instructions = false -> Disassemble instructions = None.
Proof.
  intros Hin. unfold Disassemble.
  rewrite Disassemble_loop_panic; [done |].
  rewrite length_replicate. exact Hin.
Qed.

End EmissionLoop.

(** ** Disassemble: bounds, length, comment slots *)

Section DisassembleBounds.
Import Instructions Props.

Implicit Types (inst : Instruction) (dis : list (option DisassembleInterface)).

Lemma jumps_in_range_Forall instructions (out : list (option DisassembleInterface)) :
  jumps_in_range instructions = true ->
  length out = length instructions ->
  Forall (fun inst => is_jump inst = true -> Arg inst < Z.of_nat (length out)) instructions.
Proof.
  unfold jumps_in_range. intros H Hlen. rewrite Hlen.
  apply Forall_forall. intros inst Hin Hj.
  rewrite forallb_forall in H. specialize (H inst (proj1 (list_elem_of_In _ _) Hin)).
  rewrite Hj in H. simpl in H. lia.
Qed.

(** C6 (amended). For every input sequence of length N in which every
    jump-family instruction (comment flag zero) has an argument below N,
    [Disassemble] returns an output of length exactly N, so that every jump
    target index is a valid index into the output.  (On the other inputs
    [Disassemble] panics and returns nothing.) *)
Theorem Disassemble_length instructions :
  forallb well_typed instructions = true ->
  jumps_in_range instructions = true ->
  exists out,
    Disassemble instructions = Some out /\
    length out = length instructions /\
    Forall (fun inst => is_jump inst = true -> Arg inst < Z.of_nat (length out))
           instructions.
Proof.
  intros Hty Hin.
  destruct (Disassemble_success instructions Hty Hin) as [out Hout].
  exists out. split; [exact Hout |].
  pose proof (Disassemble_length_of _ _ Hout) as Hlen.
  split; [exact Hlen |]. by apply jumps_in_range_Forall.
Qed.

Lemma Disassemble_length_witness :
  exists out,
    Disassemble [mkInstruction 0 8 0 2; mkInstruction 0 1 0 0; mkInstruction 0 13 0 0]
      = Some out /\
    length out = 3%nat /\
    Forall (fun inst => is_jump inst = true -> Arg inst < Z.of_nat (length out))
      [mkInstruction 0 8 0 2; mkInstruction 0 1 0 0; mkInstruction 0 13 0 0].
Proof.
  apply (Disassemble_length
           [mkInstruction 0 8 0 2; mkInstruction 0 1 0 0; mkInstruction 0 13 0 0]);
    reflexivity.
Defined.

(** C6 as stated fails: a single JUMP with argument 5 has no output at all. *)
Lemma Disassemble_length_counterexample :
  well_typed (mkInstruction 0 8 0 5) = true /\
  Disassemble [mkInstruction 0 8 0 5] = None /\
  ~ (exists out, Disassemble [mkInstruction 0 8 0 5] = Some out /\ length out = 1%nat).
Proof.
  split; [reflexivity |]. split; [reflexivity |].
  intros [out [H _]]. vm_compute in H. discriminate.
Qed.

(** C9. For every input sequence of length N in which every jump-family
    instruction (comment flag zero, opcode JUMP/JUMPZ/JUMPN) has an argument
    below N, [Disassemble] performs no out-of-bounds access and returns.  The
    precondition is necessary: whenever some jump-family instruction has an
    argument that is not below N, the write of the JumpTarget entry at that
    index fails its bounds check and [Disassemble] panics; the iteration that
    reaches such a jump is the one that fails. *)
Theorem Disassemble_bounds instructions :
  forallb well_typed instructions = true ->
  (jumps_in_range instructions = true -> is_Some (Disassemble instructions)) /\
  (jumps_in_range instructions = false -> Disassemble instructions = None) /\
  (forall labels i inst dis n,
     is_jump inst = true -> Z.of_nat (length dis) <= Arg inst ->
     Disassemble_body labels i inst (dis, n) = None).
Proof.
  intros Hty. split; [| split].
  - by apply Disassemble_success.
  - apply Disassemble_panic.
  - intros labels i inst dis n Hj Hge.
    rewrite Disassemble_body_jump by exact Hj.
    destruct (Z.ltb_spec (Arg inst) (Z.of_nat (length dis))); [lia | reflexivity].
Qed.

Lemma Disassemble_bounds_witness :
  is_Some (Disassemble
             [mkInstruction 0 8 0 2; mkInstruction 0 1 0 0; mkInstruction 0 13 0 0]) /\
  Disassemble [mkInstruction 0 0 0 0; mkInstruction 0 9 0 2] = None.
Proof.
  split.
  - apply (proj1 (Disassemble_bounds
             [mkInstruction 0 8 0 2; mkInstruction 0 1 0 0; mkInstruction 0 13 0 0]
             eq_refl)).
    reflexivity.
  - apply (proj1 (proj2 (Disassemble_bounds
             [mkInstruction 0 0 0 0; mkInstruction 0 9 0 2] eq_refl))).
    reflexivity.
Defined.

(** *** The loop, prefix by prefix *)

Lemma Disassemble_loop_app labels l1 l2 : forall i st,
  Disassemble_loop labels (l1 ++ l2) i st =
    match Disassemble_loop labels l1 i st with
    | Some st' => Disassemble_loop labels l2 (i + length l1) st'
    | None => None
    end.
Proof.
  induction l1 as [| inst l1 IH]; cbn [Disassemble_loop app length]; intros i st.
  - by rewrite Nat.add_0_r.
  - destruct (Disassemble_body labels i inst st) as [st1|]; [| done].
    rewrite IH. by replace (S i + length l1)%nat with (i + S (length l1))%nat by lia.
Qed.

Lemma Disassemble_prefix_S instructions i inst st :
  instructions !! i = Some inst ->
  Disassemble_prefix instructions i = Some st ->
  Disassemble_prefix instructions (S i)
    = Disassemble_body (MakeLabels instructions) i inst st.
Proof.
  unfold Disassemble_prefix. intros Hi Hst.
  rewrite (take_S_r _ _ _ Hi), Disassemble_loop_app, Hst.
  cbn [Disassemble_loop]. rewrite length_take_le by (apply lookup_lt_Some in Hi; lia).
  by destruct (Disassemble_body _ _ _ _).
Qed.

Lemma Disassemble_prefix_length instructions k dis n :
  Disassemble_prefix instructions k = Some (dis, n) ->
  length dis = length instructions.
Proof.
  unfold Disassemble_prefix. intros H%Disassemble_loop_length.
  by rewrite H, length_replicate.
Qed.

Lemma Disassemble_prefix_all instructions :
  Disassemble instructions = fst <$> Disassemble_prefix instructions (length instructions).
Proof.
  unfold Disassemble, Disassemble_prefix. rewrite firstn_all.
  by destruct (Disassemble_loop _ _ _ _) as [[? ?]|].
Qed.


End DisassembleBounds.

(** *** What remains of a comment entry in the final output *)

Section CommentKept.
Import Instructions Props.

Implicit Types (inst : Instruction) (dis : list (option DisassembleInterface)).








(** A later jump to a flagged slot replaces the Comment entry. *)
Example Disassemble_comment_overwritten :
  Disassemble [mkInstruction 1 7 0 0; mkInstruction 0 8 0 0]
  = Some [Some (DisassembleJumpTarget "" 1);
          Some (DisassembleJumpInstruction 1 8 "" 0)].
Proof. reflexivity. Qed.

End CommentKept.

(** ** Disassemble: line numbers *)

Section LineNumbers.
Import Instructions Props.

Implicit Types (inst : Instruction) (dis : list (option DisassembleInterface))
  (e : option DisassembleInterface).

Lemma line_numbers_cons e dis :
  line_numbers (e :: dis) =
    match line_of e with
    | Some v => v :: line_numbers dis
    | None => line_numbers dis
    end.
Proof. reflexivity. Qed.

Lemma line_numbers_no_line dis :
  (forall p e, dis !! p = Some e -> line_of e = None) -> line_numbers dis = [].
Proof.
  induction dis as [| e dis IH]; intros H; [done |].
  rewrite line_numbers_cons, (H 0%nat e eq_refl).
  apply IH. intros p e' Hp. exact (H (S p) e' Hp).
Qed.

(** Overwriting an entry without a line by an entry without a line. *)
Lemma line_numbers_insert_same dis : forall p e0 e,
  dis !! p = Some e0 -> line_of e0 = None -> line_of e = None ->
  line_numbers (<[p := e]> dis) = line_numbers dis.
Proof.
  induction dis as [| e1 dis IH]; intros p e0 e Hp H0 He; [done |].
  destruct p as [| p].
  - change (<[0%nat := e]> (e1 :: dis)) with (e :: dis).
    rewrite !line_numbers_cons. injection Hp as ->. by rewrite H0, He.
  - change (<[S p := e]> (e1 :: dis)) with (e1 :: <[p := e]> dis).
    rewrite !line_numbers_cons. by rewrite (IH p e0 e Hp H0 He).
Qed.

(** Writing a line at a slot after which (and at which) no entry has one. *)
Lemma line_numbers_insert_last dis : forall p e v,
  (p < length dis)%nat ->
  (forall q e0, dis !! q = Some e0 -> is_Some (line_of e0) -> (q < p)%nat) ->
  line_of e = Some v ->
  line_numbers (<[p := e]> dis) = line_numbers dis ++ [v].
Proof.
  induction dis as [| e1 dis IH]; intros p e v Hlt Hbefore He; [simpl in Hlt; lia |].
  destruct p as [| p].
  - change (<[0%nat := e]> (e1 :: dis)) with (e :: dis).
    assert (Hnone : forall q e0, (e1 :: dis) !! q = Some e0 -> line_of e0 = None).
    { intros q e0 Hq. destruct (line_of e0) eqn:Hl; [| done].
      pose proof (Hbefore q e0 Hq ltac:(rewrite Hl; eauto)). lia. }
    rewrite (line_numbers_no_line (e1 :: dis) Hnone).
    rewrite line_numbers_cons, He, (line_numbers_no_line dis); [done |].
    intros q e0 Hq. exact (Hnone (S q) e0 Hq).
  - change (<[S p := e]> (e1 :: dis)) with (e1 :: <[p := e]> dis).
    rewrite !line_numbers_cons.
    rewrite (IH p e v); [by destruct (line_of e1) | simpl in Hlt; lia | | exact He].
    intros q e0 Hq Hl. pose proof (Hbefore (S q) e0 Hq Hl). lia.
Qed.

Lemma run_from_1_snoc n :
  1 <= n -> run_from_1 (Z.to_nat (n + 1 - 1)) = run_from_1 (Z.to_nat (n - 1)) ++ [n].
Proof.
  intros Hn. unfold run_from_1.
  replace (Z.to_nat (n + 1 - 1)) with (S (Z.to_nat (n - 1))) by lia.
  rewrite seq_S, fmap_app. cbn [fmap list_fmap]. do 2 f_equal. lia.
Qed.

Lemma emits_line_jump inst : is_jump inst = true -> emits_line inst = true.
Proof.
  unfold is_jump, emits_line, OP_JUMP, OP_JUMP_ZERO, OP_JUMP_NEG.
  rewrite !andb_true_iff, !orb_true_iff, !Z.eqb_eq, !Z.leb_le. lia.
Qed.

Lemma filter_emits_take_S instructions i inst :
  instructions !! i = Some inst ->
  Z.of_nat (length (filter (fun inst => emits_line inst = true) (take (S i) instructions)))
  = Z.of_nat (length (filter (fun inst => emits_line inst = true) (take i instructions)))
    + (if emits_line inst then 1 else 0).
Proof.
  intros Hi. rewrite (take_S_r _ _ _ Hi), filter_app, length_app.
  rewrite filter_cons, filter_nil.
  destruct (emits_line inst); case_decide; try done; simpl; lia.
Qed.

(** The invariant holds before the first iteration. *)
Lemma emission_inv_init instructions :
  emission_inv instructions 0 (replicate (length instructions) None, 1).
Proof.
  unfold emission_inv. cbn [fst snd]. split; [by rewrite length_replicate |].
  split; [done |]. split.
  - apply line_numbers_no_line. by intros p e [-> _]%lookup_replicate.
  - intros p e [-> _]%lookup_replicate [v Hv]. discriminate.
Qed.

(** One iteration preserves the invariant. *)
Lemma emission_inv_step instructions i inst dis n :
  instructions !! i = Some inst ->
  well_typed inst = true -> known_slot inst = true ->
  target_ok_at instructions i inst ->
  emission_inv instructions i (dis, n) ->
  exists st', Disassemble_body (MakeLabels instructions) i inst (dis, n) = Some st' /\
              emission_inv instructions (S i) st'.
Proof.
  intros Hi Hty Hknown Htgt (Hlen & Hcount & Hlines & Hheld). cbn [fst snd] in *.
  apply well_typed_spec in Hty as (Hc0 & _).
  pose proof (lookup_lt_Some _ _ _ Hi) as Hi_lt.
  assert (Hfresh : forall q e0, dis !! q = Some e0 -> is_Some (line_of e0) -> (q < i)%nat).
  { intros q e0 Hq Hl. by destruct (Hheld q e0 Hq Hl). }
  destruct (lookup_lt_is_Some_2 dis i ltac:(lia)) as [ei Hei].
  assert (Hei_none : line_of ei = None).
  { destruct (line_of ei) eqn:Hl; [| done].
    pose proof (Hfresh i ei Hei ltac:(rewrite Hl; eauto)). lia. }
  pose proof (filter_emits_take_S _ _ _ Hi) as Hcnt.
  assert (Hn1 : 1 <= n) by lia.
  (* the entries with a line after a write of a line entry at slot [i] *)
  assert (Hheld_line : forall e', emits_line inst = true ->
            forall p e, <[i := e']> dis !! p = Some e -> is_Some (line_of e) ->
            (p < S i)%nat /\ exists inst', instructions !! p = Some inst' /\
                                           emits_line inst' = true).
  { intros e' Hem p e Hp Hl. destruct (decide (p = i)) as [-> | Hne].
    - split; [lia | eauto].
    - rewrite list_lookup_insert_ne in Hp by done.
      destruct (Hheld p e Hp Hl) as [? ?]. split; [lia | done]. }
  rewrite Disassemble_body_eq.
  destruct (Comment inst >? 0) eqn:Hc.
  { (* comment slot *)
    assert (Hem : emits_line inst = false).
    { unfold emits_line. apply Z.gtb_lt in Hc.
      destruct (Z.eqb_spec (Comment inst) 0); [lia | done]. }
    rewrite Hem in Hcnt.
    eexists. split; [reflexivity |]. unfold emission_inv. cbn [fst snd].
    split; [by rewrite length_insert |]. split; [lia |]. split.
    - by rewrite (line_numbers_insert_same dis i ei).
    - intros p e Hp Hl. destruct (decide (p = i)) as [-> | Hne].
      + rewrite list_lookup_insert_eq in Hp by lia. injection Hp as <-.
        destruct Hl as [v Hv]. discriminate.
      + rewrite list_lookup_insert_ne in Hp by done.
        destruct (Hheld p e Hp Hl) as [? ?]. split; [lia | done]. }
  assert (Hczero : Comment inst = 0).
  { destruct (Z.gtb_spec (Comment inst) 0); [discriminate | lia]. }
  destruct (Op inst =? OP_JUMP_TGT) eqn:Htg.
  { (* jump-target slot *)
    assert (Hem : emits_line inst = false).
    { unfold emits_line, OP_JUMP_NEG. apply Z.eqb_eq in Htg. rewrite Htg.
      unfold OP_JUMP_TGT. by rewrite andb_false_r. }
    rewrite Hem in Hcnt.
    eexists. split; [reflexivity |]. unfold emission_inv. cbn [fst snd].
    split; [done |]. split; [lia |]. split; [done |].
    intros p e Hp Hl. destruct (Hheld p e Hp Hl) as [? ?]. split; [lia | done]. }
  destruct ((Op inst =? OP_JUMP) || (Op inst =? OP_JUMP_ZERO) || (Op inst =? OP_JUMP_NEG))
    eqn:Hj.
  { (* jump instruction *)
    assert (Hisj : is_jump inst = true).
    { unfold is_jump. rewrite Hczero, Hj. reflexivity. }
    pose proof (emits_line_jump _ Hisj) as Hem. rewrite Hem in Hcnt.
    destruct (Htgt Hisj) as (tgt & Htl & Hwhere).
    pose proof (lookup_lt_Some _ _ _ Htl) as Ht_lt.
    cbv zeta.
    replace (Arg inst <? Z.of_nat (length dis)) with true
      by (symmetry; apply Z.ltb_lt; lia).
    set (label := default EmptyString (MakeLabels instructions !! Arg inst)).
    set (t := Z.to_nat (Arg inst)) in *.
    assert (Hti : t <> i).
    { intros ->. rewrite Hi in Htl. injection Htl as <-.
      destruct Hwhere as [? | Hf]; [lia | congruence]. }
    destruct (lookup_lt_is_Some_2 dis t ltac:(lia)) as [et Het].
    assert (Het_none : line_of et = None).
    { destruct (line_of et) eqn:Hl; [| done].
      destruct (Hheld t et Het ltac:(rewrite Hl; eauto)) as (Hlt & inst' & Hi' & Hem').
      rewrite Htl in Hi'. injection Hi' as <-.
      destruct Hwhere as [? | Hf]; [lia | congruence]. }
    eexists. split; [reflexivity |]. unfold emission_inv. cbn [fst snd].
    split; [by rewrite !length_insert |]. split; [lia |]. split.
    - rewrite (line_numbers_insert_same _ t et);
        [| by rewrite list_lookup_insert_ne | done | done].
      rewrite (line_numbers_insert_last dis i _ n); [| lia | done | done].
      by rewrite Hlines, run_from_1_snoc.
    - intros p e Hp Hl. destruct (decide (p = t)) as [-> | Hne].
      + rewrite list_lookup_insert_eq in Hp by (rewrite length_insert; lia).
        injection Hp as <-. destruct Hl as [v Hv]. discriminate.
      + rewrite list_lookup_insert_ne in Hp by done.
        exact (Hheld_line _ Hem p e Hp Hl). }
  assert (Hem_range : emits_line inst = (0 <=? Op inst) && (Op inst <=? OP_JUMP_NEG)).
  { unfold emits_line. by rewrite Hczero. }
  destruct ((OP_COPY_FROM <=? Op inst) && (Op inst <=? OP_BUMP_PLUS)) eqn:Harg.
  { (* instruction with an argument *)
    assert (Hem : emits_line inst = true).
    { rewrite Hem_range. unfold OP_COPY_FROM, OP_BUMP_PLUS, OP_JUMP_NEG in *.
      apply andb_true_iff in Harg. apply andb_true_iff. lia. }
    rewrite Hem in Hcnt.
    eexists. split; [reflexivity |]. unfold emission_inv. cbn [fst snd].
    split; [by rewrite length_insert |]. split; [lia |]. split.
    - rewrite (line_numbers_insert_last dis i _ n); [| lia | done | done].
      by rewrite Hlines, run_from_1_snoc.
    - by apply Hheld_line. }
  destruct ((OP_INBOX <=? Op inst) && (Op inst <=? OP_JUMP_NEG)) eqn:Hplain.
  { (* plain instruction *)
    assert (Hem : emits_line inst = true) by (by rewrite Hem_range).
    rewrite Hem in Hcnt.
    eexists. split; [reflexivity |]. unfold emission_inv. cbn [fst snd].
    split; [by rewrite length_insert |]. split; [lia |]. split.
    - rewrite (line_numbers_insert_last dis i _ n); [| lia | done | done].
      by rewrite Hlines, run_from_1_snoc.
    - by apply Hheld_line. }
  (* an opcode without a case: excluded by [known_slot] *)
  exfalso. unfold known_slot in Hknown.
  rewrite Hem_range, Htg, Hczero in Hknown. unfold OP_INBOX in Hplain.
  rewrite Hplain in Hknown. discriminate.
Qed.

End LineNumbers.

Section LineNumbersTheorem.
Import Instructions Props.

Lemma targets_ok_from_spec all rest : forall i,
  targets_ok_from all rest i = true ->
  forall k inst, rest !! k = Some inst -> target_ok_at all (i + k) inst.
Proof.
  induction rest as [| x rest IH]; intros i H k inst Hk; [done |].
  cbn [targets_ok_from] in H. apply andb_true_iff in H as [Hx Hrest].
  destruct k as [| k].
  - injection Hk as ->. rewrite Nat.add_0_r. intros Hj. rewrite Hj in Hx.
    destruct (all !! Z.to_nat (Arg inst)) as [tgt|]; [| discriminate].
    exists tgt. split; [done |].
    apply orb_true_iff in Hx as [Hx | Hx].
    + left. by apply Nat.ltb_lt.
    + right. by apply negb_true_iff.
  - replace (i + S k)%nat with (S i + k)%nat by lia. by apply (IH (S i)).
Qed.

Lemma drop_cons_inv {A} (l : list A) i x rest :
  drop i l = x :: rest -> l !! i = Some x /\ drop (S i) l = rest.
Proof.
  intros H.
  assert (Hx : l !! i = Some x).
  { rewrite <- (Nat.add_0_r i), <- lookup_drop, H. reflexivity. }
  split; [exact Hx |].
  rewrite (drop_S _ _ _ Hx) in H. by injection H.
Qed.

(** The loop preserves the invariant up to the end of the input. *)
Lemma emission_inv_loop instructions :
  forallb well_typed instructions = true ->
  forallb known_slot instructions = true ->
  targets_ok instructions = true ->
  forall rest i st,
    drop i instructions = rest ->
    emission_inv instructions i st ->
    exists st', Disassemble_loop (MakeLabels instructions) rest i st = Some st' /\
                emission_inv instructions (i + length rest) st'.
Proof.
  intros Hty Hknown Htgt.
  induction rest as [| inst rest IH]; intros i [dis n] Hdrop Hinv.
  - exists (dis, n). split; [done |]. by rewrite Nat.add_0_r.
  - apply drop_cons_inv in Hdrop as [Hi Hdrop].
    pose proof (proj1 (list_elem_of_In _ _) (list_elem_of_lookup_2 _ _ _ Hi)) as Hin.
    rewrite forallb_forall in Hty, Hknown.
    destruct (emission_inv_step instructions i inst dis n Hi (Hty _ Hin) (Hknown _ Hin))
      as (st1 & Hb & Hinv1); [| exact Hinv |].
    { apply (targets_ok_from_spec instructions instructions 0 Htgt i inst Hi). }
    cbn [Disassemble_loop]. rewrite Hb.
    destruct (IH (S i) st1 Hdrop Hinv1) as (st' & Hl & Hinv').
    exists st'. split; [exact Hl |].
    by replace (i + length (inst :: rest))%nat with (S i + length rest)%nat
      by (cbn [length]; lia).
Qed.

(** C4 (amended). For every input sequence in which every slot without
    comment flag has an opcode that [Disassemble] has a case for (a
    mnemonic or JUMP_TGT) and every jump-family instruction addresses a slot
    of the sequence that lies after the jump or is not itself a
    line-carrying slot (a comment or JUMP_TGT slot), [Disassemble] returns
    and the line numbers of the Plain/Arg/Jump entries of its output, read
    in output order, are exactly 1, 2, ..., k, where k is the number of
    slots with comment flag zero and a mnemonic opcode; Comment and
    JumpTarget entries (and unset entries) carry no line number. *)
Theorem Disassemble_line_numbers instructions :
  forallb well_typed instructions = true ->
  forallb known_slot instructions = true ->
  targets_ok instructions = true ->
  exists out,
    Disassemble instructions = Some out /\
    line_numbers out = run_from_1 (length (line_numbers out)) /\
    length (line_numbers out)
      = length (filter (fun inst => emits_line inst = true) instructions) /\
    (forall index, line_of (Some (DisassembleComment index)) = None) /\
    (forall label jumpee, line_of (Some (DisassembleJumpTarget label jumpee)) = None).
Proof.
  intros Hty Hknown Htgt.
  destruct (emission_inv_loop instructions Hty Hknown Htgt instructions 0
              (replicate (length instructions) None, 1) eq_refl
              (emission_inv_init instructions))
    as ([out n] & Hloop & Hlen & Hcount & Hlines & _).
  cbn [fst snd] in *. rewrite Nat.add_0_l, firstn_all in Hcount.
  exists out. unfold Disassemble. rewrite Hloop.
  assert (Hk : length (line_numbers out) = Z.to_nat (n - 1)).
  { rewrite Hlines. unfold run_from_1. by rewrite length_fmap, length_seq. }
  split; [done |]. split; [by rewrite Hk |]. split; [lia |]. done.
Qed.

Lemma Disassemble_line_numbers_witness :
  exists out,
    Disassemble [mkInstruction 0 8 0 3; mkInstruction 1 0 0 0; mkInstruction 0 4 2 5;
                 mkInstruction 0 13 0 0; mkInstruction 0 1 0 0]
      = Some out /\
    line_numbers out = run_from_1 (length (line_numbers out)) /\
    length (line_numbers out)
      = length (filter (fun inst => emits_line inst = true)
                  [mkInstruction 0 8 0 3; mkInstruction 1 0 0 0; mkInstruction 0 4 2 5;
                   mkInstruction 0 13 0 0; mkInstruction 0 1 0 0]) /\
    (forall index, line_of (Some (DisassembleComment index)) = None) /\
    (forall label jumpee, line_of (Some (DisassembleJumpTarget label jumpee)) = None).
Proof.
  apply (Disassemble_line_numbers
           [mkInstruction 0 8 0 3; mkInstruction 1 0 0 0; mkInstruction 0 4 2 5;
            mkInstruction 0 13 0 0; mkInstruction 0 1 0 0]);
    reflexivity.
Defined.

(** C4 as stated fails.  A jump back to a slot that already holds an
    instruction replaces that instruction's entry by a JumpTarget, and the
    run of the remaining line numbers no longer starts at 1. *)
Lemma Disassemble_line_numbers_counterexample :
  forallb well_typed [mkInstruction 0 0 0 0; mkInstruction 0 8 0 0] = true /\
  Disassemble [mkInstruction 0 0 0 0; mkInstruction 0 8 0 0]
    = Some [Some (DisassembleJumpTarget "" 1);
            Some (DisassembleJumpInstruction 2 8 "" 0)] /\
  line_numbers [Some (DisassembleJumpTarget "" 1);
                Some (DisassembleJumpInstruction 2 8 "" 0)] = [2] /\
  ~ (forall instructions out,
       Disassemble instructions = Some out ->
       line_numbers out = run_from_1 (length (line_numbers out))).
Proof.
  split; [reflexivity |]. split; [reflexivity |]. split; [reflexivity |].
  intros H.
  specialize (H [mkInstruction 0 0 0 0; mkInstruction 0 8 0 0] _ eq_refl).
  vm_compute in H. discriminate.
Qed.

(** The same happens at an opcode without a case: the line counter advances
    but no entry is written. *)
Example Disassemble_unknown_opcode :
  Disassemble [mkInstruction 0 11 0 0; mkInstruction 0 0 0 0]
    = Some [None; Some (DisassembleInstruction 2 0)].
Proof. reflexivity. Qed.

(** The scenario of the specification. *)
Example Disassemble_scenario :
  Disassemble [mkInstruction 0 8 0 2; mkInstruction 0 1 0 0; mkInstruction 0 13 0 0]
    = Some [Some (DisassembleJumpInstruction 1 8 "a" 2);
            Some (DisassembleInstruction 2 1);
            Some (DisassembleJumpTarget "a" 0)].
Proof. reflexivity. Qed.

End LineNumbersTheorem.

(** ** Comment geometry *)

Section CommentGeometry.
Import Instructions Props.

Implicit Types (s rest : list RawPoint) (comment : list (list CommentPoint))
  (line : list CommentPoint).

Lemma is_zero_point_zero : is_zero_point zero_point = true.
Proof. reflexivity. Qed.

(** Entries other than the sentinel extend the open line. *)
Lemma DecodeComment_loop_stroke s : forall tail comment line,
  no_sentinel s = true ->
  DecodeComment_loop (s ++ tail) comment line
    = DecodeComment_loop tail comment (line ++ map decode_point s).
Proof.
  induction s as [| p s IH]; intros tail comment line Hs.
  - by rewrite app_nil_r.
  - cbn [no_sentinel forallb] in Hs. apply andb_true_iff in Hs as [Hp Hs].
    apply negb_true_iff in Hp.
    cbn [app DecodeComment_loop map]. rewrite Hp, (IH _ _ _ Hs).
    by rewrite <- app_assoc.
Qed.

(** A sentinel closes the open line and starts an empty one. *)
Lemma DecodeComment_loop_sentinel tail comment line :
  DecodeComment_loop (zero_point :: tail) comment line
    = DecodeComment_loop tail (comment ++ [line]) [].
Proof. reflexivity. Qed.

Lemma DecodeComment_loop_terminated strokes : forall tail comment,
  forallb no_sentinel strokes = true ->
  DecodeComment_loop (terminated strokes ++ tail) comment []
    = DecodeComment_loop tail (comment ++ map (map decode_point) strokes) [].
Proof.
  unfold terminated.
  induction strokes as [| s strokes IH]; intros tail comment Hall.
  - by rewrite app_nil_r.
  - cbn [forallb] in Hall. apply andb_true_iff in Hall as [Hs Hall].
    cbn [map concat]. rewrite <- !app_assoc.
    rewrite (DecodeComment_loop_stroke s _ _ _ Hs).
    cbn [app]. rewrite DecodeComment_loop_sentinel, (IH _ _ Hall).
    by rewrite <- app_assoc.
Qed.

(** Entries after the last sentinel are read into the open line, which is
    not stored. *)
Lemma DecodeComment_loop_unterminated rest comment line :
  no_sentinel rest = true ->
  DecodeComment_loop rest comment line = comment.
Proof.
  intros Hr. rewrite <- (app_nil_r rest), (DecodeComment_loop_stroke rest _ _ _ Hr).
  reflexivity.
Qed.

(** C1 (amended). [DecodeComments], for every raw comment, closes a
    polyline at each all-zero 4-byte sentinel entry: a raw comment made of
    strokes, each followed by a sentinel, and then of further entries that
    are not followed by a sentinel, decodes to exactly the strokes that a
    sentinel closed, each point read as two little-endian 16-bit
    coordinates.  The points accumulated after the last sentinel are not
    part of the Comment.  In particular [(1,1),(2,2),(0,0,0,0),(5,5)]
    decodes to the single line [[(1,1),(2,2)]], and the same entries
    followed by a sentinel decode to [[(1,1),(2,2)],[(5,5)]]. *)
Theorem DecodeComments_strokes (rawComments : list (list RawPoint)) (i : nat)
    (strokes : list (list RawPoint)) (rest : list RawPoint) :
  rawComments !! i = Some (terminated strokes ++ rest) ->
  forallb no_sentinel strokes = true ->
  no_sentinel rest = true ->
  (exists comments,
     DecodeComments rawComments = Some comments /\
     length comments = length rawComments /\
     comments !! i = Some (map (map decode_point) strokes)) /\
  DecodeComments [sample_raw]
    = Some [[[mkCommentPoint 1 1; mkCommentPoint 2 2]]] /\
  DecodeComments [sample_raw ++ [zero_point]]
    = Some [[[mkCommentPoint 1 1; mkCommentPoint 2 2]; [mkCommentPoint 5 5]]].
Proof.
  intros Hi Hstrokes Hrest. split; [| split; reflexivity].
  exists (map DecodeComment rawComments). split; [reflexivity |].
  split; [by rewrite length_map |].
  rewrite list_lookup_fmap, Hi. cbn [fmap option_fmap option_map]. f_equal.
  unfold DecodeComment.
  rewrite (DecodeComment_loop_terminated strokes rest [] Hstrokes).
  by rewrite (DecodeComment_loop_unterminated rest _ _ Hrest).
Qed.

Lemma DecodeComments_strokes_witness :
  (exists comments,
     DecodeComments [sample_raw] = Some comments /\
     length comments = 1%nat /\
     comments !! 0%nat = Some (map (map decode_point) [[pt x01; pt x02]])) /\
  DecodeComments [sample_raw]
    = Some [[[mkCommentPoint 1 1; mkCommentPoint 2 2]]] /\
  DecodeComments [sample_raw ++ [zero_point]]
    = Some [[[mkCommentPoint 1 1; mkCommentPoint 2 2]; [mkCommentPoint 5 5]]].
Proof.
  apply (DecodeComments_strokes [sample_raw] 0 [[pt x01; pt x02]] [pt x05]);
    reflexivity.
Defined.

(** C1 as stated fails: the entries [(1,1),(2,2),(0,0,0,0),(5,5)] do not
    decode to two lines; the point (5,5), which no sentinel follows, is
    dropped. *)
Lemma DecodeComments_counterexample :
  sample_raw = [(x01, x00, x01, x00); (x02, x00, x02, x00);
                (x00, x00, x00, x00); (x05, x00, x05, x00)] /\
  DecodeComments [sample_raw] = Some [[[mkCommentPoint 1 1; mkCommentPoint 2 2]]] /\
  DecodeComments [sample_raw]
    <> Some [[[mkCommentPoint 1 1; mkCommentPoint 2 2]; [mkCommentPoint 5 5]]].
Proof.
  split; [reflexivity |]. split; [reflexivity |]. vm_compute. discriminate.
Qed.

End CommentGeometry.

(** ** Raw comment records *)

Section RawComments.
Import Instructions Props.

Implicit Types (r : Reader).

Lemma byte_val_range b : 0 <= byte_val b < 256.
Proof. unfold byte_val. pose proof (Byte.to_N_bounded b). lia. Qed.

Lemma read_full_inv n r bs r' :
  read_full n r = Some (bs, r') ->
  0 <= offset r /\ length bs = n /\
  r' = mkReader (contents r) (offset r + Z.of_nat n).
Proof.
  unfold read_full. case_match eqn:Hb; [| done]. intros [= <- <-].
  apply andb_true_iff in Hb as [H0 Hn]. apply Z.leb_le in H0, Hn.
  split; [done |]. split; [| done].
  rewrite length_take, length_drop. lia.
Qed.

Lemma read_full_ok n r :
  0 <= offset r ->
  offset r + Z.of_nat n <= Z.of_nat (length (contents r)) ->
  exists bs, read_full n r = Some (bs, mkReader (contents r) (offset r + Z.of_nat n)) /\
             length bs = n.
Proof.
  intros H0 Hn. unfold read_full.
  replace ((0 <=? offset r)
           && (offset r + Z.of_nat n <=? Z.of_nat (length (contents r)))) with true
    by (symmetry; apply andb_true_iff; lia).
  eexists. split; [reflexivity |]. rewrite length_take, length_drop. lia.
Qed.

Lemma four_bytes (bs : list byte) :
  length bs = 4%nat -> exists b0 b1 b2 b3, bs = [b0; b1; b2; b3].
Proof.
  destruct bs as [| b0 [| b1 [| b2 [| b3 [| b4 bs]]]]]; try discriminate. eauto.
Qed.

Lemma read_uint32_inv r v r' :
  read_uint32 r = Some (v, r') ->
  0 <= offset r /\ in_uint32 v /\ r' = mkReader (contents r) (offset r + 4).
Proof.
  unfold read_uint32. destruct (read_full 4 r) as [[bs r1]|] eqn:Hr; [| done].
  apply read_full_inv in Hr as (H0 & Hlen & ->).
  destruct (four_bytes bs Hlen) as (b0 & b1 & b2 & b3 & ->). intros [= <- <-].
  split; [done |]. split; [| done].
  pose proof (byte_val_range b0). pose proof (byte_val_range b1).
  pose proof (byte_val_range b2). pose proof (byte_val_range b3).
  unfold in_uint32. change (2 ^ 8) with 256. change (2 ^ 16) with 65536.
  change (2 ^ 24) with 16777216. change (2 ^ 32) with 4294967296. lia.
Qed.

Lemma read_raw_point_ok r :
  0 <= offset r ->
  offset r + 4 <= Z.of_nat (length (contents r)) ->
  exists p, read_raw_point r = Some (p, mkReader (contents r) (offset r + 4)).
Proof.
  intros H0 Hn. unfold read_raw_point.
  destruct (read_full_ok 4 r H0 Hn) as (bs & -> & Hlen).
  destruct (four_bytes bs Hlen) as (b0 & b1 & b2 & b3 & ->). eauto.
Qed.

Lemma read_raw_point_inv r p r' :
  read_raw_point r = Some (p, r') ->
  0 <= offset r /\ r' = mkReader (contents r) (offset r + 4).
Proof.
  unfold read_raw_point. destruct (read_full 4 r) as [[bs r1]|] eqn:Hr; [| done].
  apply read_full_inv in Hr as (H0 & Hlen & ->).
  destruct (four_bytes bs Hlen) as (b0 & b1 & b2 & b3 & ->). by intros [= <- <-].
Qed.

Lemma read_raw_points_ok n : forall r,
  0 <= offset r ->
  offset r + 4 * Z.of_nat n <= Z.of_nat (length (contents r)) ->
  exists ps, read_raw_points n r
               = Some (ps, mkReader (contents r) (offset r + 4 * Z.of_nat n)) /\
             length ps = n.
Proof.
  induction n as [| n IH]; intros r H0 Hn; cbn [read_raw_points].
  - exists []. split; [| done]. destruct r as [c o]. cbn. do 3 f_equal. lia.
  - destruct (read_raw_point_ok r H0 ltac:(lia)) as [p ->].
    destruct (IH (mkReader (contents r) (offset r + 4))) as (ps & Hps & Hlen);
      cbn [offset contents]; [lia | lia |].
    rewrite Hps. cbn [offset contents]. exists (p :: ps).
    split; [| by cbn; rewrite Hlen].
    by replace (offset r + 4 + 4 * Z.of_nat n) with (offset r + 4 * Z.of_nat (S n)) by lia.
Qed.

Lemma read_raw_points_inv n : forall r ps r',
  read_raw_points n r = Some (ps, r') ->
  0 <= offset r ->
  r' = mkReader (contents r) (offset r + 4 * Z.of_nat n) /\ length ps = n.
Proof.
  induction n as [| n IH]; intros r ps r'; cbn [read_raw_points].
  - intros [= <- <-] _. split; [| done]. destruct r as [c o]. cbn. f_equal. lia.
  - destruct (read_raw_point r) as [[p r1]|] eqn:Hp; [| done].
    destruct (read_raw_points n r1) as [[ps1 r2]|] eqn:Hps; [| done].
    intros [= <- <-] H0.
    apply read_raw_point_inv in Hp as (_ & ->).
    apply IH in Hps as [-> Hlen]; cbn [offset contents]; [| lia].
    split; [f_equal; lia | by cbn; rewrite Hlen].
Qed.

Lemma Seek_current_forward r off :
  0 <= offset r -> 0 <= off ->
  Seek_current r off = mkReader (contents r) (offset r + off).
Proof.
  intros H0 Hoff. unfold Seek_current.
  destruct (Z.ltb_spec (offset r + off) 0); [lia | done].
Qed.

Lemma padding_skip_mod K :
  padding_skip K = (1024 - 4 * K) mod 2 ^ 32.
Proof.
  unfold padding_skip, uint32_sub, uint32_mul, uint32_wrap.
  rewrite Zminus_mod_idemp_r. f_equal. lia.
Qed.

Lemma padding_skip_cases K :
  0 <= K ->
  (K mod 2 ^ 30 <= 256 -> padding_skip K = 1024 - 4 * (K mod 2 ^ 30)) /\
  (256 < K mod 2 ^ 30 -> padding_skip K = 2 ^ 32 + 1024 - 4 * (K mod 2 ^ 30)).
Proof.
  intros HK. rewrite padding_skip_mod.
  pose proof (Z.mod_pos_bound K (2 ^ 30) ltac:(lia)) as Hm.
  assert (Hq : K = 2 ^ 30 * (K / 2 ^ 30) + K mod 2 ^ 30) by (apply Z.div_mod; lia).
  set (m := K mod 2 ^ 30) in *. set (q := K / 2 ^ 30) in *.
  change (2 ^ 30) with 1073741824 in *. change (2 ^ 32) with 4294967296 in *.
  split; intros Hcase.
  - symmetry. apply (Z.mod_unique _ _ (- q)); lia.
  - symmetry. apply (Z.mod_unique _ _ (- q - 1)); lia.
Qed.

(** The offset after one comment record, whatever its declared count. *)
Lemma DecodeRawComment_offset r K r1 comment r' :
  read_uint32 r = Some (K, r1) ->
  DecodeRawComment r = Some (comment, r') ->
  Z.of_nat (length comment) = K /\
  contents r' = contents r /\
  offset r' = offset r + 4 + 4 * K + padding_skip K.
Proof.
  intros HK. unfold DecodeRawComment. rewrite HK.
  apply read_uint32_inv in HK as (H0 & [HK0 HK1] & ->).
  destruct (read_raw_points _ _) as [[ps r2]|] eqn:Hps; [| done].
  intros [= <- <-].
  apply read_raw_points_inv in Hps as [-> Hlen]; cbn [offset contents]; [| lia].
  pose proof (Z.mod_pos_bound (1024 - 4 * K) (2 ^ 32) ltac:(lia)) as Hskip.
  rewrite <- padding_skip_mod in Hskip.
  rewrite Seek_current_forward; cbn [offset contents]; [| lia | lia].
  split; [lia |]. split; [reflexivity | lia].
Qed.

End RawComments.

Section RawCommentTheorems.
Import Instructions Props.

Implicit Types (r : Reader).

(** C2 (amended). For every comment record with declared entry-count K, K
    at most 256 (so that the padding is not negative) and the count and the K
    entries present in the stream, [DecodeRawComments] reads the uint32
    count K, reads K 4-byte entries, then seeks forward by 1024 - 4*K bytes:
    the stream advances by exactly 1028 bytes for that comment, independent
    of K, that is by the 4 bytes of the count and a 1024-byte slot. *)
Theorem DecodeRawComment_advance r K r1 :
  read_uint32 r = Some (K, r1) ->
  K <= 256 ->
  offset r + 4 + 4 * K <= Z.of_nat (length (contents r)) ->
  exists comment r',
    DecodeRawComment r = Some (comment, r') /\
    Z.of_nat (length comment) = K /\
    contents r' = contents r /\
    padding_skip K = 1024 - 4 * K /\
    offset r' = offset r + 1028.
Proof.
  intros HK Hsmall Hfit.
  pose proof (read_uint32_inv _ _ _ HK) as (H0 & [HK0 _] & Hr1).
  assert (Hskip : padding_skip K = 1024 - 4 * K).
  { destruct (padding_skip_cases K HK0) as [Hlow _].
    rewrite Z.mod_small in Hlow by lia. apply Hlow. lia. }
  destruct (read_raw_points_ok (Z.to_nat K) r1) as (ps & Hps & Hlen);
    [subst r1; cbn [offset contents]; lia .. |].
  assert (Hdec : DecodeRawComment r
                 = Some (ps, Seek_current
                               (mkReader (contents r1)
                                  (offset r1 + 4 * Z.of_nat (Z.to_nat K)))
                               (padding_skip K))).
  { unfold DecodeRawComment. by rewrite HK, Hps. }
  eexists _, _. split; [exact Hdec |].
  destruct (DecodeRawComment_offset _ _ _ _ _ HK Hdec) as (Hl & Hc & Ho).
  split; [exact Hl |]. split; [exact Hc |]. split; [exact Hskip |].
  rewrite Ho, Hskip. lia.
Qed.

Lemma DecodeRawComment_advance_witness :
  exists comment r',
    DecodeRawComment (mkReader sample_block 4) = Some (comment, r') /\
    Z.of_nat (length comment) = 2 /\
    contents r' = sample_block /\
    padding_skip 2 = 1024 - 4 * 2 /\
    offset r' = 4 + 1028.
Proof.
  apply (DecodeRawComment_advance (mkReader sample_block 4) 2 (mkReader sample_block 8)).
  - reflexivity.
  - lia.
  - vm_compute. discriminate.
Defined.

(** C2 as stated fails: on a record that declares two entries the stream
    advances by 1028 bytes, not by 1024. *)
Lemma DecodeRawComment_advance_counterexample :
  read_uint32 (mkReader sample_block 4) = Some (2, mkReader sample_block 8) /\
  exists comment r',
    DecodeRawComment (mkReader sample_block 4) = Some (comment, r') /\
    offset r' - 4 = 1028 /\
    offset r' - 4 <> 1024.
Proof.
  split; [reflexivity |].
  eexists _, _. split; [vm_compute; reflexivity |]. cbn [offset]. lia.
Qed.

(** The whole block: after the count of comments, every record takes 1028
    bytes. *)
Lemma DecodeRawComments_loop_advance n : forall r,
  0 <= offset r ->
  (forall j, 0 <= j < Z.of_nat n ->
     exists K r1,
       read_uint32 (mkReader (contents r) (offset r + 1028 * j)) = Some (K, r1) /\
       K <= 256) ->
  offset r + 1028 * Z.of_nat n <= Z.of_nat (length (contents r)) ->
  exists cs r',
    DecodeRawComments_loop n r = Some (cs, r') /\ length cs = n /\
    contents r' = contents r /\ offset r' = offset r + 1028 * Z.of_nat n.
Proof.
  induction n as [| n IH]; intros r H0 Hcounts Hfit; cbn [DecodeRawComments_loop].
  - exists [], r. repeat split; lia.
  - destruct (Hcounts 0 ltac:(lia)) as (K & r1 & HK & Hsmall).
    replace (mkReader (contents r) (offset r + 1028 * 0)) with r in HK
      by (destruct r; cbn; f_equal; lia).
    pose proof (read_uint32_inv _ _ _ HK) as (_ & [HK0 _] & _).
    destruct (DecodeRawComment_advance r K r1 HK Hsmall ltac:(lia))
      as (c & r' & -> & _ & Hc & _ & Ho).
    destruct (IH r') as (cs & r'' & -> & Hlen & Hc' & Ho').
    + lia.
    + intros j Hj. destruct (Hcounts (j + 1) ltac:(lia)) as (K' & r1' & HK' & Hs').
      exists K', r1'. split; [| exact Hs'].
      rewrite <- HK', Hc, Ho. do 2 f_equal. lia.
    + rewrite Hc, Ho. lia.
    + exists (c :: cs), r''. split; [done |]. split; [by cbn; rewrite Hlen |].
      split; [congruence | lia].
Qed.

(** C10 (amended). In [DecodeRawComments] the padding skip is computed as
    1024 - 4*K in unsigned 32-bit arithmetic and then converted to the
    signed seek offset: for every declared entry-count K the relative seek
    amount is (1024 - 4*K) mod 2^32 and is never negative, so the decoder
    never seeks backwards.  The product 4*K wraps as well, so the amount
    depends on K mod 2^30 only: it is 1024 - 4*(K mod 2^30) when
    K mod 2^30 <= 256 and 2^32 + 1024 - 4*(K mod 2^30), at least 1028, when
    K mod 2^30 > 256; in particular for every K with 256 < K < 2^30 the
    decoder seeks forward by 2^32 - (4*K - 1024) bytes. *)
Theorem padding_skip_unsigned K :
  in_uint32 K ->
  padding_skip K = (1024 - 4 * K) mod 2 ^ 32 /\
  0 <= padding_skip K < 2 ^ 32 /\
  (K mod 2 ^ 30 <= 256 -> padding_skip K = 1024 - 4 * (K mod 2 ^ 30)) /\
  (256 < K mod 2 ^ 30 ->
     padding_skip K = 2 ^ 32 + 1024 - 4 * (K mod 2 ^ 30) /\ 1028 <= padding_skip K) /\
  (256 < K < 2 ^ 30 -> padding_skip K = 2 ^ 32 - (4 * K - 1024)) /\
  (forall r r1 comment r',
     read_uint32 r = Some (K, r1) ->
     DecodeRawComment r = Some (comment, r') ->
     offset r' = offset r + 4 + 4 * K + padding_skip K).
Proof.
  intros [HK0 HK1].
  destruct (padding_skip_cases K HK0) as [Hlow Hhigh].
  pose proof (Z.mod_pos_bound K (2 ^ 30) ltac:(lia)) as Hm.
  split; [apply padding_skip_mod |]. split.
  { rewrite padding_skip_mod. apply Z.mod_pos_bound. lia. }
  split; [exact Hlow |]. split.
  { intros Hc. split; [by apply Hhigh |]. rewrite (Hhigh Hc).
    change (2 ^ 30) with 1073741824 in *. change (2 ^ 32) with 4294967296. lia. }
  split.
  { intros Hc. rewrite Z.mod_small in Hhigh by lia. rewrite Hhigh by lia. lia. }
  intros r r1 comment r' Hr Hd.
  by destruct (DecodeRawComment_offset _ _ _ _ _ Hr Hd) as (_ & _ & ->).
Qed.

Lemma padding_skip_unsigned_witness :
  padding_skip 257 = (1024 - 4 * 257) mod 2 ^ 32 /\
  0 <= padding_skip 257 < 2 ^ 32 /\
  (257 mod 2 ^ 30 <= 256 -> padding_skip 257 = 1024 - 4 * (257 mod 2 ^ 30)) /\
  (256 < 257 mod 2 ^ 30 ->
     padding_skip 257 = 2 ^ 32 + 1024 - 4 * (257 mod 2 ^ 30) /\ 1028 <= padding_skip 257) /\
  (256 < 257 < 2 ^ 30 -> padding_skip 257 = 2 ^ 32 - (4 * 257 - 1024)) /\
  (forall r r1 comment r',
     read_uint32 r = Some (257, r1) ->
     DecodeRawComment r = Some (comment, r') ->
     offset r' = offset r + 4 + 4 * 257 + padding_skip 257).
Proof.
  apply (padding_skip_unsigned 257). unfold in_uint32. simpl. lia.
Defined.

(** C10 as stated fails for the last part: the count 2^30 + 256 is above
    256, and the decoder does not seek forward at all, since 4*K wraps to
    1024 and the seek amount is 0. *)
Lemma padding_skip_counterexample :
  in_uint32 (2 ^ 30 + 256) /\ 256 < 2 ^ 30 + 256 /\
  padding_skip (2 ^ 30 + 256) = 0 /\
  ~ (forall K, in_uint32 K -> 256 < K -> 0 < padding_skip K).
Proof.
  assert (Hin : in_uint32 (2 ^ 30 + 256)) by (unfold in_uint32; simpl; lia).
  split; [exact Hin |]. split; [simpl; lia |]. split; [reflexivity |].
  intros H. specialize (H (2 ^ 30 + 256) Hin ltac:(simpl; lia)).
  vm_compute in H. discriminate.
Qed.

End RawCommentTheorems.

(** ** Labels *)

Section Labels.
Import Instructions Props.

Lemma label_value_cons c s :
  label_value (String c s)
  = (Z.of_N (Ascii.N_of_ascii c) - 96) * 26 ^ Z.of_nat (String.length s) + label_value s.
Proof. reflexivity. Qed.

Lemma N_of_ascii_of_digit d :
  0 <= d < 256 -> Z.of_N (Ascii.N_of_ascii (Ascii.ascii_of_N (Z.to_N d))) = d.
Proof. intros Hd. rewrite Ascii.N_ascii_embedding by lia. lia. Qed.

(** The loop of [NextLabel] on a lowercase label: it adds one to the
    bijective base-26 value, up to the carry out of the first letter. *)
Lemma NextLabel_loop_spec s :
  all_lower s = true ->
  exists carry s',
    NextLabel_loop s = (carry, s') /\
    (carry = 0 \/ carry = 1) /\
    all_lower s' = true /\
    String.length s' = String.length s /\
    label_value s' + carry * 26 ^ Z.of_nat (String.length s) = label_value s + 1.
Proof.
  induction s as [| c s IH]; intros Hs.
  - exists 1, EmptyString. repeat split; auto.
  - cbn [all_lower] in Hs. apply andb_true_iff in Hs as [Hc Hs].
    destruct (IH Hs) as (carry & s' & Hloop & Hcarry & Hlow & Hlen & Hval).
    unfold is_lower, byte_a, byte_z in Hc. apply andb_true_iff in Hc as [Hc1 Hc2].
    apply Z.leb_le in Hc1, Hc2.
    cbn [NextLabel_loop]. rewrite Hloop.
    set (cz := Z.of_N (Ascii.N_of_ascii c)) in *.
    assert (Hp : 0 < 26 ^ Z.of_nat (String.length s)) by (apply Z.pow_pos_nonneg; lia).
    assert (Hpow : 26 ^ Z.of_nat (String.length (String c s))
                   = 26 * 26 ^ Z.of_nat (String.length s)).
    { cbn [String.length]. rewrite Nat2Z.inj_succ, Z.pow_succ_r by lia. reflexivity. }
    rewrite Hpow. set (p := 26 ^ Z.of_nat (String.length s)) in *.
    unfold byte_z. destruct (Z.gtb_spec (cz + carry) 122) as [Hgt | Hle].
    + assert (cz = 122 /\ carry = 1) as [Hcz ->] by lia.
      exists 1, (String "a"%char s'). split; [reflexivity |]. split; [by right |].
      split; [exact Hlow |]. split; [by cbn; rewrite Hlen |].
      rewrite !label_value_cons, Hlen. fold p cz.
      change (Z.of_N (Ascii.N_of_ascii "a"%char)) with 97. rewrite Hcz. lia.
    + exists 0, (String (Ascii.ascii_of_N (Z.to_N (cz + carry))) s').
      split; [reflexivity |]. split; [by left |].
      split.
      { cbn [all_lower]. rewrite Hlow, andb_true_r. unfold is_lower, byte_a, byte_z.
        rewrite N_of_ascii_of_digit by lia. apply andb_true_iff. lia. }
      split; [by cbn; rewrite Hlen |].
      rewrite !label_value_cons, Hlen, N_of_ascii_of_digit by lia. fold p cz.
      destruct Hcarry as [-> | ->]; lia.
Qed.

Lemma NextLabel_spec s :
  all_lower s = true ->
  all_lower (NextLabel s) = true /\ label_value (NextLabel s) = label_value s + 1.
Proof.
  intros Hs. unfold NextLabel.
  destruct (NextLabel_loop_spec s Hs) as (carry & s' & -> & Hcarry & Hlow & Hlen & Hval).
  destruct Hcarry as [-> | ->].
  - change (0 =? 1) with false. cbv iota. split; [exact Hlow | lia].
  - change (1 =? 1) with true. cbv iota.
    change (String.append "a" s') with (String "a"%char s').
    split; [exact Hlow |]. rewrite label_value_cons, Hlen.
    change (Z.of_N (Ascii.N_of_ascii "a"%char)) with 97. lia.
Qed.

Lemma nth_label_spec n :
  all_lower (nth_label n) = true /\ label_value (nth_label n) = Z.of_nat n + 1.
Proof.
  unfold nth_label. induction n as [| n [IHl IHv]]; [done |].
  change (Nat.iter (S n) NextLabel "a"%string)
    with (NextLabel (Nat.iter n NextLabel "a"%string)).
  destruct (NextLabel_spec _ IHl) as [Hl Hv].
  split; [exact Hl |]. rewrite Hv, IHv. lia.
Qed.

Lemma iter_NextLabel_shift n label :
  Nat.iter n NextLabel (NextLabel label) = Nat.iter (S n) NextLabel label.
Proof. symmetry. apply Nat.iter_succ_r. Qed.

(** *** The pre-pass *)

Lemma target_count_cons inst l :
  target_count (inst :: l)
  = ((if (Op inst =? OP_JUMP_TGT)%Z then 1 else 0) + target_count l)%nat.
Proof.
  unfold target_count. rewrite filter_cons.
  destruct (Z.eqb_spec (Op inst) OP_JUMP_TGT); case_decide; done.
Qed.

(** Keys that belong to no JUMP_TGT slot of [rest] keep their binding. *)
Lemma MakeLabels_loop_frame rest : forall i label labels k,
  (forall j inst, rest !! j = Some inst -> Op inst = OP_JUMP_TGT ->
                  k <> uint32_wrap (Z.of_nat (i + j))) ->
  MakeLabels_loop rest i label labels !! k = labels !! k.
Proof.
  induction rest as [| x rest IH]; intros i label labels k Hk; [done |].
  cbn [MakeLabels_loop].
  assert (Hrest : forall j inst, rest !! j = Some inst -> Op inst = OP_JUMP_TGT ->
                                 k <> uint32_wrap (Z.of_nat (S i + j))).
  { intros j inst Hj Hop. replace (S i + j)%nat with (i + S j)%nat by lia.
    by apply (Hk (S j) inst). }
  destruct (Z.eqb_spec (Op x) OP_JUMP_TGT) as [Hx | Hx].
  - rewrite (IH _ _ _ _ Hrest), lookup_insert_ne; [done |].
    specialize (Hk 0%nat x eq_refl Hx). rewrite Nat.add_0_r in Hk. congruence.
  - by rewrite (IH _ _ _ _ Hrest).
Qed.

Lemma uint32_wrap_small z : 0 <= z < 2 ^ 32 -> uint32_wrap z = z.
Proof. intros Hz. unfold uint32_wrap. by apply Z.mod_small. Qed.

(** A JUMP_TGT slot gets the label of its rank among the JUMP_TGT slots. *)
Lemma MakeLabels_loop_target rest : forall i label labels j inst,
  Z.of_nat (i + length rest) <= 2 ^ 32 ->
  rest !! j = Some inst -> Op inst = OP_JUMP_TGT ->
  MakeLabels_loop rest i label labels !! Z.of_nat (i + j)
  = Some (Nat.iter (target_count (take j rest)) NextLabel label).
Proof.
  induction rest as [| x rest IH]; intros i label labels j inst Hlen Hj Hop; [done |].
  cbn [length] in Hlen. cbn [MakeLabels_loop].
  destruct j as [| j].
  - injection Hj as ->. rewrite Hop, Z.eqb_refl, Nat.add_0_r.
    rewrite MakeLabels_loop_frame.
    + by rewrite <- (uint32_wrap_small (Z.of_nat i)) at 1 by lia;
        rewrite lookup_insert_eq.
    + intros j' inst' Hj' _. pose proof (lookup_lt_Some _ _ _ Hj').
      rewrite uint32_wrap_small by lia. lia.
  - cbn [take]. rewrite target_count_cons.
    replace (i + S j)%nat with (S i + j)%nat by lia.
    destruct (Z.eqb_spec (Op x) OP_JUMP_TGT) as [Hx | Hx].
    + rewrite (IH (S i) _ _ j inst) by (done || lia).
      by rewrite iter_NextLabel_shift.
    + by rewrite (IH (S i) _ _ j inst) by (done || lia).
Qed.

Lemma target_count_take_S l i inst :
  l !! i = Some inst -> Op inst = OP_JUMP_TGT ->
  target_count (take (S i) l) = S (target_count (take i l)).
Proof.
  intros Hi Hop. unfold target_count.
  rewrite (take_S_r _ _ _ Hi), filter_app, length_app, filter_cons, filter_nil.
  case_decide; [cbn; lia | done].
Qed.

Lemma target_count_take_mono l i j :
  (i <= j)%nat -> (target_count (take i l) <= target_count (take j l))%nat.
Proof.
  intros Hij. unfold target_count.
  replace j with (i + (j - i))%nat by lia.
  rewrite <- take_take_drop, filter_app, length_app. lia.
Qed.

End Labels.

Section LabelsTheorem.
Import Instructions Props.

Lemma MakeLabels_only_targets instructions k label :
  Z.of_nat (length instructions) <= 2 ^ 32 ->
  MakeLabels instructions !! k = Some label ->
  exists i inst, k = Z.of_nat i /\ instructions !! i = Some inst /\ Op inst = OP_JUMP_TGT.
Proof.
  intros Hlen Hk.
  assert (Hwrap : forall j inst, instructions !! j = Some inst ->
                    uint32_wrap (Z.of_nat (0 + j)) = Z.of_nat j).
  { intros j inst Hj. pose proof (lookup_lt_Some _ _ _ Hj).
    rewrite Nat.add_0_l. apply uint32_wrap_small. lia. }
  destruct (decide (0 <= k < Z.of_nat (length instructions))) as [Hin | Hout].
  - destruct (lookup_lt_is_Some_2 instructions (Z.to_nat k) ltac:(lia)) as [inst Hi].
    destruct (decide (Op inst = OP_JUMP_TGT)) as [Hop | Hop].
    + exists (Z.to_nat k), inst. split; [lia | done].
    + exfalso. unfold MakeLabels in Hk. rewrite MakeLabels_loop_frame in Hk; [done |].
      intros j inst' Hj Hop' ->. rewrite (Hwrap j inst' Hj), Nat2Z.id in Hi. congruence.
  - exfalso. unfold MakeLabels in Hk. rewrite MakeLabels_loop_frame in Hk; [done |].
    intros j inst' Hj Hop' ->. rewrite (Hwrap j inst' Hj) in Hout.
    pose proof (lookup_lt_Some _ _ _ Hj). lia.
Qed.

Lemma MakeLabels_at_target instructions i inst :
  Z.of_nat (length instructions) <= 2 ^ 32 ->
  instructions !! i = Some inst -> Op inst = OP_JUMP_TGT ->
  MakeLabels instructions !! Z.of_nat i
  = Some (nth_label (target_count (take i instructions))).
Proof.
  intros Hlen Hi Hop. unfold MakeLabels, nth_label.
  by rewrite <- (MakeLabels_loop_target instructions 0 "a"%string ∅ i inst).
Qed.

(** C3 (amended). The label pre-pass [MakeLabels], for every input
    sequence (of at most 2^32 slots), produces a mapping from slot index to
    label whose keys are exactly the indices of the slots whose opcode field
    is JUMP_TGT, whether or not a jump instruction names them; it covers the
    argument of a jump only when that slot holds JUMP_TGT.  Labels are
    assigned in the base-26 sequence "a","b",...,"z","aa",... in increasing
    slot order during a single left-to-right scan over the JUMP_TGT slots:
    the slot with r JUMP_TGT slots before it gets the r-th label.  There is
    exactly one label per such slot and labels of distinct slots differ. *)
Theorem MakeLabels_targets instructions :
  Z.of_nat (length instructions) <= 2 ^ 32 ->
  (forall i inst, instructions !! i = Some inst -> Op inst = OP_JUMP_TGT ->
     MakeLabels instructions !! Z.of_nat i
     = Some (nth_label (target_count (take i instructions)))) /\
  (forall k label, MakeLabels instructions !! k = Some label ->
     exists i inst,
       k = Z.of_nat i /\ instructions !! i = Some inst /\ Op inst = OP_JUMP_TGT) /\
  (forall i j li lj, (i < j)%nat ->
     MakeLabels instructions !! Z.of_nat i = Some li ->
     MakeLabels instructions !! Z.of_nat j = Some lj ->
     label_value li < label_value lj /\ li <> lj) /\
  (forall n, all_lower (nth_label n) = true /\ label_value (nth_label n) = Z.of_nat n + 1) /\
  map nth_label [0; 1; 25; 26; 27; 51; 52; 701; 702]%nat
  = ["a"; "b"; "z"; "aa"; "ab"; "az"; "ba"; "zz"; "aaa"]%string.
Proof.
  intros Hlen. split; [| split; [| split; [| split]]].
  - intros i inst. by apply MakeLabels_at_target.
  - intros k label. by apply MakeLabels_only_targets.
  - intros i j li lj Hij Hi Hj.
    destruct (MakeLabels_only_targets _ _ _ Hlen Hi) as (i' & insti & Heq & Hii & Hopi).
    apply Nat2Z.inj in Heq. subst i'.
    destruct (MakeLabels_only_targets _ _ _ Hlen Hj) as (j' & instj & Heq & Hjj & Hopj).
    apply Nat2Z.inj in Heq. subst j'.
    rewrite (MakeLabels_at_target _ _ _ Hlen Hii Hopi) in Hi. injection Hi as <-.
    rewrite (MakeLabels_at_target _ _ _ Hlen Hjj Hopj) in Hj. injection Hj as <-.
    pose proof (target_count_take_S _ _ _ Hii Hopi) as HS.
    pose proof (target_count_take_mono instructions (S i) j ltac:(lia)) as Hmono.
    destruct (nth_label_spec (target_count (take i instructions))) as [_ Hvi].
    destruct (nth_label_spec (target_count (take j instructions))) as [_ Hvj].
    assert (Hlt : label_value (nth_label (target_count (take i instructions)))
                  < label_value (nth_label (target_count (take j instructions))))
      by (rewrite Hvi, Hvj; lia).
    split; [exact Hlt |]. intros Heq. rewrite Heq in Hlt. lia.
  - apply nth_label_spec.
  - vm_compute. reflexivity.
Qed.

Lemma MakeLabels_targets_witness :
  MakeLabels [mkInstruction 0 8 0 3; mkInstruction 0 8 0 2;
              mkInstruction 0 13 0 0; mkInstruction 0 13 0 0] !! Z.of_nat 3
  = Some (nth_label (target_count
            (take 3 [mkInstruction 0 8 0 3; mkInstruction 0 8 0 2;
                     mkInstruction 0 13 0 0; mkInstruction 0 13 0 0]))).
Proof.
  apply (proj1 (MakeLabels_targets
                  [mkInstruction 0 8 0 3; mkInstruction 0 8 0 2;
                   mkInstruction 0 13 0 0; mkInstruction 0 13 0 0]
                  ltac:(vm_compute; discriminate))
               3%nat (mkInstruction 0 13 0 0)); reflexivity.
Defined.

(** C3 as stated fails.  The map is built from the JUMP_TGT slots, not from
    the arguments of the jumps: with jumps to slots 3 and 2 in that order,
    slot 3 is discovered first but gets "b"; and the argument of a jump to
    a slot that does not hold JUMP_TGT gets no label. *)
Lemma MakeLabels_counterexample :
  MakeLabels [mkInstruction 0 8 0 3; mkInstruction 0 8 0 2;
              mkInstruction 0 13 0 0; mkInstruction 0 13 0 0] !! 3 = Some "b"%string /\
  labels_by_discovery [mkInstruction 0 8 0 3; mkInstruction 0 8 0 2;
                       mkInstruction 0 13 0 0; mkInstruction 0 13 0 0] !! 3
    = Some "a"%string /\
  MakeLabels [mkInstruction 0 8 0 1; mkInstruction 0 1 0 0] !! 1 = None /\
  ~ (forall instructions, MakeLabels instructions = labels_by_discovery instructions).
Proof.
  split; [reflexivity |]. split; [reflexivity |]. split; [reflexivity |].
  intros H.
  pose proof (f_equal (fun m : gmap Z string => m !! 1)
                (H [mkInstruction 0 8 0 1; mkInstruction 0 1 0 0])) as H1.
  vm_compute in H1. discriminate.
Qed.

End LabelsTheorem.

(** * Further properties *)

(** ** Addressing: layout and floor lookup *)

Section AddressingMore.
Import Profile Props.

Lemma FloorStartAddr_eq profile i :
  FloorStartAddr profile i = int64_wrap (36 + i * 138796).
Proof.
  unfold FloorStartAddr, int64_add, int64_mul.
  change (int64_wrap (FILE_HEADER_OFFSET + FILE_HEADER_SIZE)) with 36.
  change (int64_wrap (FLOOR_HEADER_SIZE + int64_wrap (FLOOR_TAB_SIZE * 3))) with 138796.
  apply int64_wrap_add_r.
Qed.

Lemma TabStartAddr_eq profile i t :
  TabStartAddr profile i t = int64_wrap (36 + i * 138796 + 40 + 46252 * t).
Proof.
  unfold TabStartAddr. rewrite FloorStartAddr_eq.
  unfold int64_add, int64_mul, FLOOR_HEADER_SIZE, FLOOR_TAB_SIZE.
  by rewrite int64_wrap_add_r, int64_wrap_add_l, <- Z.add_assoc, int64_wrap_add_l,
    Z.add_assoc.
Qed.

(** X1. The blocks of a profile are laid out back to back: the first tab of
    a floor starts right after the floor header, each further tab starts
    [FLOOR_TAB_SIZE] bytes after the one before, and the third tab ends
    where the next floor starts. *)
Theorem tab_layout_contiguous (profile i t : Z) :
  0 <= i < 2 ^ 32 -> 0 <= t < 2 ^ 32 ->
  TabStartAddr profile i 0 = FloorStartAddr profile i + FLOOR_HEADER_SIZE /\
  TabStartAddr profile i (t + 1) = TabStartAddr profile i t + FLOOR_TAB_SIZE /\
  TabStartAddr profile i 2 + FLOOR_TAB_SIZE = FloorStartAddr profile (i + 1).
Proof.
  intros Hi Ht. rewrite !TabStartAddr_eq, !FloorStartAddr_eq.
  unfold FLOOR_HEADER_SIZE, FLOOR_TAB_SIZE.
  change (2 ^ 32) with 4294967296 in *.
  rewrite !int64_wrap_id
    by (unfold in_int64; change (2 ^ 63) with 9223372036854775808; lia).
  lia.
Qed.

Lemma tab_layout_contiguous_witness :
  TabStartAddr 1 7 0 = FloorStartAddr 1 7 + FLOOR_HEADER_SIZE /\
  TabStartAddr 1 7 (1 + 1) = TabStartAddr 1 7 1 + FLOOR_TAB_SIZE /\
  TabStartAddr 1 7 2 + FLOOR_TAB_SIZE = FloorStartAddr 1 (7 + 1).
Proof.
  apply (tab_layout_contiguous 1 7 1); simpl; lia.
Defined.

Lemma floorToIdx_outside n : ~ (36 <= n <= 41) -> floorToIdx !! n = None.
Proof.
  intros Hn. unfold floorToIdx. apply not_elem_of_list_to_map_1.
  cbn. set_unfold. lia.
Qed.

Lemma FloorToIndex_above n :
  42 <= n -> in_int64 n -> FloorToIndex n = n - 6.
Proof.
  intros Hn Hin. unfold FloorToIndex. rewrite floorToIdx_outside by lia.
  unfold missingFloors. cbn [range_until].
  repeat match goal with
         | |- context [?a <? ?b] => destruct (Z.ltb_spec a b); [lia |]
         end.
  change (0 + 1 + 1 + 1 + 1) with 4. change (0 + 1 + 1 + 1 + 1 + 1) with 5.
  unfold int64_sub. unfold in_int64 in Hin.
  rewrite !int64_wrap_id
    by (unfold in_int64; try rewrite int64_wrap_id by (unfold in_int64; lia); lia).
  lia.
Qed.

Lemma FloorToIndex_below n :
  n <= 0 -> in_int64 n -> FloorToIndex n = int64_wrap (n - 1).
Proof.
  intros Hn Hin. unfold FloorToIndex. rewrite floorToIdx_outside by lia.
  unfold missingFloors. cbn [range_until].
  destruct (Z.ltb_spec n 5); [| lia].
  unfold int64_sub. rewrite Z.sub_0_r. by rewrite (int64_wrap_id n).
Qed.

(** X2. [GetFloor] on a profile of 36 floors succeeds exactly for the
    floor numbers 1..41; for any other number the index it computes is
    outside the array.  On the number of a cut-scene floor (5, 15, 18, 27,
    33) it returns the floor before it. *)
Theorem GetFloor_defined {Floor : Type} (Floors : list Floor) (n : Z) :
  length Floors = 36%nat -> in_int64 n ->
  (is_Some (GetFloor Floors n) <-> 1 <= n <= 41) /\
  (n ∈ [5; 15; 18; 27; 33] -> GetFloor Floors n = GetFloor Floors (n - 1)).
Proof.
  intros Hlen Hin. split.
  - unfold GetFloor. rewrite Hlen. change (Z.of_nat 36) with 36.
    destruct (decide (1 <= n <= 41)) as [Hn | Hn].
    + pose proof (check_range_sound
        (fun n => (0 <=? FloorToIndex n) && (FloorToIndex n <? 36))
        1 41 ltac:(vm_compute; reflexivity) n ltac:(lia)) as Hidx.
      cbv beta in Hidx. rewrite Hidx. split; [done |]. intros _.
      apply lookup_lt_is_Some_2. apply andb_true_iff in Hidx as [H0 H1]. lia.
    + split; [| lia]. intros [fl Hfl]. exfalso.
      destruct (decide (n <= 0)).
      * rewrite FloorToIndex_below in Hfl by (done || lia).
        unfold in_int64 in Hin.
        destruct (decide (n = - 2 ^ 63)) as [-> | Hmin]; [vm_compute in Hfl; done |].
        rewrite int64_wrap_id in Hfl by (unfold in_int64; lia).
        destruct (Z.leb_spec 0 (n - 1)); [lia | done].
      * rewrite FloorToIndex_above in Hfl by (done || lia).
        destruct (Z.ltb_spec (n - 6) 36); [lia |]. by rewrite andb_false_r in Hfl.
  - intros Hm. set_unfold in Hm.
    destruct Hm as [-> | [-> | [-> | [-> | [-> | []]]]]];
      unfold GetFloor; rewrite Hlen; reflexivity.
Qed.

Lemma GetFloor_defined_witness :
  (is_Some (GetFloor (replicate 36 tt) 15) <-> 1 <= 15 <= 41) /\
  (15 ∈ [5; 15; 18; 27; 33] ->
   GetFloor (replicate 36 tt) 15 = GetFloor (replicate 36 tt) (15 - 1)).
Proof.
  apply (GetFloor_defined (replicate 36 tt) 15).
  - reflexivity.
  - unfold in_int64. simpl. lia.
Defined.

End AddressingMore.

(** ** Labels: successor and count *)

Section LabelsMore.
Import Instructions Props.

(** X3. On a label of lowercase letters [NextLabel] returns the next label
    of the bijective base-26 sequence: again lowercase letters, of value one
    more, of the same length or one letter longer, and different from its
    argument. *)
Theorem NextLabel_successor (s : string) :
  all_lower s = true ->
  all_lower (NextLabel s) = true /\
  label_value (NextLabel s) = label_value s + 1 /\
  (String.length (NextLabel s) = String.length s \/
   String.length (NextLabel s) = S (String.length s)) /\
  NextLabel s <> s.
Proof.
  intros Hs. destruct (NextLabel_spec s Hs) as [Hl Hv].
  split; [exact Hl |]. split; [exact Hv |]. split.
  - unfold NextLabel.
    destruct (NextLabel_loop_spec s Hs) as (carry & s' & -> & Hcarry & _ & Hlen & _).
    destruct Hcarry as [-> | ->].
    + left. exact Hlen.
    + right. change (1 =? 1) with true. cbv iota.
      change (String.append "a" s') with (String "a"%char s').
      cbn [String.length]. by rewrite Hlen.
  - intros Heq. rewrite Heq in Hv. lia.
Qed.

Lemma NextLabel_successor_witness :
  all_lower (NextLabel "az") = true /\
  label_value (NextLabel "az") = label_value "az" + 1 /\
  (String.length (NextLabel "az") = String.length "az" \/
   String.length (NextLabel "az") = S (String.length "az")) /\
  NextLabel "az" <> "az"%string.
Proof. apply (NextLabel_successor "az"). reflexivity. Defined.

Lemma MakeLabels_loop_size rest : forall i label (labels : gmap Z string),
  Z.of_nat (i + length rest) <= 2 ^ 32 ->
  (forall k, Z.of_nat i <= k -> labels !! k = None) ->
  size (MakeLabels_loop rest i label labels) = (size labels + target_count rest)%nat.
Proof.
  induction rest as [| x rest IH]; intros i label labels Hlen Hfresh.
  - cbn. unfold target_count. cbn. lia.
  - cbn [length] in Hlen. cbn [MakeLabels_loop]. rewrite target_count_cons.
    destruct (Z.eqb_spec (Op x) OP_JUMP_TGT) as [Hx | Hx].
    + rewrite IH.
      * rewrite uint32_wrap_small by lia.
        rewrite map_size_insert_None by (apply Hfresh; lia). lia.
      * lia.
      * intros k Hk. rewrite uint32_wrap_small by lia.
        rewrite lookup_insert_ne by lia. apply Hfresh. lia.
    + rewrite IH; [lia | lia |]. intros k Hk. apply Hfresh. lia.
Qed.

(** X4. [MakeLabels] (on a sequence of at most 2^32 slots) returns exactly
    as many labels as there are slots whose opcode field is JUMP_TGT,
    whatever their comment flag; in particular none when there is no such
    slot. *)
Theorem MakeLabels_size instructions :
  Z.of_nat (length instructions) <= 2 ^ 32 ->
  size (MakeLabels instructions) = target_count instructions /\
  (target_count instructions = 0%nat -> MakeLabels instructions = ∅).
Proof.
  intros Hlen.
  assert (Hsize : size (MakeLabels instructions) = target_count instructions).
  { unfold MakeLabels. rewrite MakeLabels_loop_size; [by rewrite map_size_empty | lia |].
    intros k _. apply lookup_empty. }
  split; [exact Hsize |]. intros H0. apply map_size_empty_inv. by rewrite Hsize.
Qed.

Lemma MakeLabels_size_witness :
  size (MakeLabels [mkInstruction 0 8 0 2; mkInstruction 1 13 0 0; mkInstruction 0 13 0 0])
  = target_count [mkInstruction 0 8 0 2; mkInstruction 1 13 0 0; mkInstruction 0 13 0 0] /\
  (target_count [mkInstruction 0 8 0 2; mkInstruction 1 13 0 0; mkInstruction 0 13 0 0]
   = 0%nat ->
   MakeLabels [mkInstruction 0 8 0 2; mkInstruction 1 13 0 0; mkInstruction 0 13 0 0] = ∅).
Proof.
  apply (MakeLabels_size
           [mkInstruction 0 8 0 2; mkInstruction 1 13 0 0; mkInstruction 0 13 0 0]).
  vm_compute. discriminate.
Defined.

End LabelsMore.

(** ** Disassemble: what each slot of the output holds *)

Section DisassembleEntries.
Import Instructions Props.

Implicit Types (inst : Instruction) (dis : list (option DisassembleInterface))
  (e : DisassembleInterface).

Lemma WithLabel_in_Mnemonics op :
  WithLabel_Member op = true -> Mnemonics_Member op = true.
Proof.
  rewrite WithLabel_Member_spec, Mnemonics_Member_spec.
  unfold OP_JUMP, OP_JUMP_ZERO, OP_JUMP_NEG, OP_INBOX.
  rewrite !orb_true_iff, !Z.eqb_eq, andb_true_iff, !Z.leb_le. lia.
Qed.

Lemma WithArg_in_Mnemonics op :
  WithArg_Member op = true -> Mnemonics_Member op = true.
Proof.
  rewrite WithArg_Member_spec, Mnemonics_Member_spec.
  unfold OP_COPY_FROM, OP_BUMP_PLUS, OP_JUMP_NEG, OP_INBOX.
  rewrite !andb_true_iff, !Z.leb_le. lia.
Qed.

Lemma own_entry_None labels line inst :
  own_entry labels line inst = None <-> silent inst = true.
Proof.
  unfold own_entry, silent.
  destruct (Comment inst >? 0); [by split |].
  destruct (Op inst =? OP_JUMP_TGT); [by split |].
  destruct (WithLabel_Member (Op inst)) eqn:Hl.
  { rewrite (WithLabel_in_Mnemonics _ Hl). by split. }
  destruct (WithArg_Member (Op inst)) eqn:Ha.
  { rewrite (WithArg_in_Mnemonics _ Ha). by split. }
  destruct (Mnemonics_Member (Op inst)); by split.
Qed.

Lemma is_jump_member inst :
  0 <= Comment inst ->
  is_jump inst = negb (Comment inst >? 0) && WithLabel_Member (Op inst).
Proof.
  intros Hc. unfold is_jump. rewrite WithLabel_Member_spec. f_equal.
  destruct (Z.eqb_spec (Comment inst) 0) as [-> | Hne]; [done |].
  symmetry. apply negb_false_iff, Z.gtb_lt. lia.
Qed.

(** The loop body in terms of the slot's own entry and the write of the
    JumpTarget entry. *)
Lemma Disassemble_body_own labels i inst dis n :
  0 <= Comment inst ->
  Disassemble_body labels i inst (dis, n) =
    let dis1 := match own_entry labels n inst with
                | Some e => <[i := Some e]> dis
                | None => dis
                end in
    let n' := if advances inst then n + 1 else n in
    if is_jump inst then
      if Arg inst <? Z.of_nat (length dis) then
        Some (<[Z.to_nat (Arg inst) :=
                  Some (DisassembleJumpTarget
                          (default EmptyString (labels !! Arg inst)) (Z.of_nat i))]> dis1,
              n')
      else None
    else Some (dis1, n').
Proof.
  intros Hc. rewrite (is_jump_member inst Hc).
  unfold Disassemble_body, own_entry, advances. cbv zeta.
  destruct (Comment inst >? 0); [done |].
  assert (Htgt : WithLabel_Member OP_JUMP_TGT = false) by (vm_compute; reflexivity).
  destruct (Z.eqb_spec (Op inst) OP_JUMP_TGT) as [-> | Hne]; [by rewrite Htgt |].
  cbn [negb andb].
  destruct (WithLabel_Member (Op inst)); [by rewrite length_insert |].
  destruct (WithArg_Member (Op inst)); [done |].
  by destruct (Mnemonics_Member (Op inst)).
Qed.

(** *** The line counter *)

Lemma line_at_S instructions i inst :
  instructions !! i = Some inst ->
  line_at instructions (S i)
  = if advances inst then line_at instructions i + 1 else line_at instructions i.
Proof.
  intros Hi. unfold line_at.
  rewrite (take_S_r _ _ _ Hi), filter_app, length_app, filter_cons, filter_nil.
  destruct (advances inst); case_decide; try done; cbn [length]; lia.
Qed.

Lemma Disassemble_prefix_inv instructions k inst st' :
  instructions !! k = Some inst ->
  Disassemble_prefix instructions (S k) = Some st' ->
  exists st, Disassemble_prefix instructions k = Some st /\
             Disassemble_body (MakeLabels instructions) k inst st = Some st'.
Proof.
  intros Hk Hpre.
  destruct (Disassemble_prefix instructions k) as [st|] eqn:Hst.
  - exists st. split; [done |]. by rewrite <- (Disassemble_prefix_S _ _ _ _ Hk Hst).
  - unfold Disassemble_prefix in Hpre, Hst.
    by rewrite (take_S_r _ _ _ Hk), Disassemble_loop_app, Hst in Hpre.
Qed.

Lemma Disassemble_prefix_counter instructions :
  forallb well_typed instructions = true ->
  forall k dis n,
    (k <= length instructions)%nat ->
    Disassemble_prefix instructions k = Some (dis, n) ->
    n = line_at instructions k.
Proof.
  intros Hty. induction k as [| k IH]; intros dis n Hk Hpre.
  - unfold Disassemble_prefix in Hpre. cbn in Hpre. by injection Hpre as <- <-.
  - destruct (lookup_lt_is_Some_2 instructions k ltac:(lia)) as [inst Hi].
    destruct (Disassemble_prefix_inv _ _ _ _ Hi Hpre) as ([dis0 n0] & Hpre0 & Hb).
    rewrite (line_at_S _ _ _ Hi), <- (IH dis0 n0 ltac:(lia) Hpre0).
    assert (Hc : 0 <= Comment inst).
    { rewrite forallb_forall in Hty.
      apply (well_typed_spec inst), Hty, list_elem_of_In, (list_elem_of_lookup_2 _ k), Hi. }
    rewrite (Disassemble_body_own _ _ _ _ _ Hc) in Hb. cbv zeta in Hb.
    repeat case_match; by simplify_eq.
Qed.

(** *** Entries that stay *)

Lemma Disassemble_body_stays labels j inst dis n dis' n' i :
  0 <= Comment inst ->
  (is_jump inst = true -> Z.to_nat (Arg inst) <> i) ->
  (j = i -> silent inst = true) ->
  Disassemble_body labels j inst (dis, n) = Some (dis', n') ->
  dis' !! i = dis !! i.
Proof.
  intros Hc Harg Hsilent. rewrite (Disassemble_body_own _ _ _ _ _ Hc). cbv zeta.
  assert (Hown : match own_entry labels n inst with
                 | Some e => <[j := Some e]> dis
                 | None => dis
                 end !! i = dis !! i).
  { destruct (own_entry labels n inst) as [e|] eqn:He; [| done].
    destruct (decide (j = i)) as [Hji | Hji].
    - apply Hsilent, (own_entry_None labels n) in Hji. congruence.
    - by rewrite list_lookup_insert_ne. }
  destruct (is_jump inst).
  - destruct (Arg inst <? Z.of_nat (length dis)); [| done]. intros [= <- <-].
    rewrite list_lookup_insert_ne by (by apply Harg). exact Hown.
  - intros [= <- <-]. exact Hown.
Qed.

Lemma Disassemble_loop_stays labels i rest : forall j dis n dis' n',
  forallb well_typed rest = true ->
  (forall k inst, rest !! k = Some inst -> is_jump inst = true ->
                  Z.to_nat (Arg inst) <> i) ->
  (forall k inst, rest !! k = Some inst -> (j + k)%nat = i -> silent inst = true) ->
  Disassemble_loop labels rest j (dis, n) = Some (dis', n') ->
  dis' !! i = dis !! i.
Proof.
  induction rest as [| inst rest IH]; cbn [Disassemble_loop forallb];
    intros j dis n dis' n' Hty Hargs Hsil Hloop.
  - by injection Hloop as <- <-.
  - apply andb_true_iff in Hty as [Hty1 Hty].
    apply well_typed_spec in Hty1 as (Hc & _).
    destruct (Disassemble_body labels j inst (dis, n)) as [[dis1 n1]|] eqn:Hb; [| done].
    rewrite (IH (S j) dis1 n1 dis' n' Hty
               (fun k inst' Hk => Hargs (S k) inst' Hk)
               (fun k inst' Hk Heq => Hsil (S k) inst' Hk ltac:(lia)) Hloop).
    apply (Disassemble_body_stays labels j inst dis n dis1 n1 i Hc
             (Hargs 0%nat inst eq_refl)); [| exact Hb].
    intros Hji. apply (Hsil 0%nat inst eq_refl). lia.
Qed.

Lemma forallb_well_typed_drop k instructions :
  forallb well_typed instructions = true ->
  forallb well_typed (drop k instructions) = true.
Proof.
  rewrite !forallb_forall. intros Hty x Hx. apply Hty.
  apply list_elem_of_In. apply list_elem_of_In in Hx.
  exact (subseteq_drop k instructions x Hx).
Qed.

Lemma well_typed_lookup instructions i inst :
  forallb well_typed instructions = true ->
  instructions !! i = Some inst -> 0 <= Comment inst /\ 0 <= Arg inst.
Proof.
  rewrite forallb_forall. intros Hty Hi.
  assert (H : well_typed inst = true)
    by (apply Hty, list_elem_of_In, (list_elem_of_lookup_2 _ i), Hi).
  apply well_typed_spec in H. tauto.
Qed.

(** The output of a run is the state after the prefix [S i] carried through
    the rest of the loop. *)
Lemma Disassemble_split instructions out i inst :
  instructions !! i = Some inst ->
  Disassemble instructions = Some out ->
  exists dis0 n0 dis1 n1 n2,
    Disassemble_prefix instructions i = Some (dis0, n0) /\
    Disassemble_body (MakeLabels instructions) i inst (dis0, n0) = Some (dis1, n1) /\
    Disassemble_loop (MakeLabels instructions) (drop (S i) instructions) (S i) (dis1, n1)
      = Some (out, n2).
Proof.
  intros Hi Hout. pose proof (lookup_lt_Some _ _ _ Hi) as Hlt.
  unfold Disassemble in Hout.
  rewrite <- (take_drop (S i) instructions) in Hout at 2.
  rewrite Disassemble_loop_app in Hout.
  fold (Disassemble_prefix instructions (S i)) in Hout.
  destruct (Disassemble_prefix instructions (S i)) as [[dis1 n1]|] eqn:Hpre; [| done].
  destruct (Disassemble_loop _ (drop (S i) instructions) _ _) as [[dis2 n2]|] eqn:Hsuf;
    [| done].
  injection Hout as <-.
  rewrite length_take_le, Nat.add_0_l in Hsuf by lia.
  destruct (Disassemble_prefix_inv _ _ _ _ Hi Hpre) as ([dis0 n0] & Hpre0 & Hb).
  by exists dis0, n0, dis1, n1, n2.
Qed.

End DisassembleEntries.

Section DisassembleEntryTheorems.
Import Instructions Props.

Implicit Types (inst : Instruction) (dis : list (option DisassembleInterface))
  (e : DisassembleInterface).

(** A slot's own entry stays when no jump at or after the slot names it. *)
Lemma Disassemble_own_entry_kept instructions out i inst e :
  forallb well_typed instructions = true ->
  Disassemble instructions = Some out ->
  instructions !! i = Some inst ->
  own_entry (MakeLabels instructions) (line_at instructions i) inst = Some e ->
  (forall j inst', (i <= j)%nat -> instructions !! j = Some inst' ->
                   is_jump inst' = true -> Z.to_nat (Arg inst') <> i) ->
  out !! i = Some (Some e).
Proof.
  intros Hty Hout Hi Hown Hlater.
  pose proof (lookup_lt_Some _ _ _ Hi) as Hlt.
  destruct (well_typed_lookup _ _ _ Hty Hi) as [Hc Ha].
  destruct (Disassemble_split _ _ _ _ Hi Hout)
    as (dis0 & n0 & dis1 & n1 & n2 & Hpre & Hb & Hsuf).
  pose proof (Disassemble_prefix_counter _ Hty i dis0 n0 ltac:(lia) Hpre) as ->.
  pose proof (Disassemble_prefix_length _ _ _ _ Hpre) as Hlen0.
  assert (Hargs : forall k inst', drop (S i) instructions !! k = Some inst' ->
                    is_jump inst' = true -> Z.to_nat (Arg inst') <> i).
  { intros k inst' Hk. rewrite lookup_drop in Hk.
    apply (Hlater (S i + k)%nat inst'); [lia | exact Hk]. }
  assert (Hsil : forall k inst', drop (S i) instructions !! k = Some inst' ->
                   (S i + k)%nat = i -> silent inst' = true) by (intros; lia).
  rewrite (Disassemble_loop_stays _ i _ _ _ _ _ _
             (forallb_well_typed_drop (S i) _ Hty) Hargs Hsil Hsuf).
  rewrite (Disassemble_body_own _ _ _ _ _ Hc), Hown in Hb. cbv zeta in Hb.
  destruct (is_jump inst) eqn:Hj.
  - destruct (Arg inst <? Z.of_nat (length dis0)); [| done].
    injection Hb as <- <-.
    rewrite list_lookup_insert_ne by (apply (Hlater i inst); done || lia).
    apply list_lookup_insert_eq. lia.
  - injection Hb as <- <-. apply list_lookup_insert_eq. lia.
Qed.

(** X5. The entry that a slot's own iteration stores (a Comment for a
    flagged slot; a Jump, Arg or Plain instruction, whose line number is one
    more than the number of earlier slots that are neither flagged nor
    JUMP_TGT) is the slot's entry in the output of [Disassemble], provided
    no jump-family instruction at that slot or after it has the slot as its
    argument. *)
Theorem Disassemble_own_entry instructions out i inst e :
  forallb well_typed instructions = true ->
  Disassemble instructions = Some out ->
  instructions !! i = Some inst ->
  own_entry (MakeLabels instructions) (line_at instructions i) inst = Some e ->
  (forall j inst', (i <= j)%nat -> instructions !! j = Some inst' ->
                   is_jump inst' = true -> Z.to_nat (Arg inst') <> i) ->
  out !! i = Some (Some e).
Proof. apply Disassemble_own_entry_kept. Qed.

Lemma Disassemble_own_entry_witness :
  [Some (DisassembleInstruction 1 0); Some (DisassembleComment 5);
   Some (DisassembleJumpTarget "a" 3); Some (DisassembleJumpInstruction 2 9 "a" 2)]
    !! 3%nat
  = Some (Some (DisassembleJumpInstruction 2 9 "a" 2)).
Proof.
  apply (Disassemble_own_entry
           [mkInstruction 0 0 0 0; mkInstruction 1 5 0 0; mkInstruction 0 13 0 0;
            mkInstruction 0 9 0 2]
           _ 3 (mkInstruction 0 9 0 2));
    [reflexivity | reflexivity | reflexivity | reflexivity |].
  intros j inst' Hij Hj Hjump.
  destruct j as [| [| [| [| j]]]]; try lia; [| done].
  injection Hj as <-. simpl. lia.
Defined.

(** X6. The slot named by the argument of a jump-family instruction holds,
    in the output of [Disassemble], the JumpTarget entry written by the last
    jump that names it, with that jump's index as [Jumpee] and the label that
    [MakeLabels] gives the slot (the empty string if it gives none), provided
    the slot does not store an entry of its own afterwards: it lies at or
    before that jump, or it is a slot that stores nothing (JUMP_TGT without
    comment flag, or an opcode without a mnemonic). *)
Theorem Disassemble_jump_target instructions out j inst :
  forallb well_typed instructions = true ->
  Disassemble instructions = Some out ->
  instructions !! j = Some inst -> is_jump inst = true ->
  (forall m inst', (j < m)%nat -> instructions !! m = Some inst' ->
                   is_jump inst' = true -> Z.to_nat (Arg inst') <> Z.to_nat (Arg inst)) ->
  ((Z.to_nat (Arg inst) <= j)%nat \/
   exists tgt, instructions !! Z.to_nat (Arg inst) = Some tgt /\ silent tgt = true) ->
  out !! Z.to_nat (Arg inst)
  = Some (Some (DisassembleJumpTarget
                  (default EmptyString (MakeLabels instructions !! Arg inst))
                  (Z.of_nat j))).
Proof.
  intros Hty Hout Hj Hjump Hlater Hwhere.
  destruct (well_typed_lookup _ _ _ Hty Hj) as [Hc Ha].
  destruct (Disassemble_split _ _ _ _ Hj Hout)
    as (dis0 & n0 & dis1 & n1 & n2 & Hpre & Hb & Hsuf).
  set (t := Z.to_nat (Arg inst)) in *.
  assert (Hargs : forall k inst', drop (S j) instructions !! k = Some inst' ->
                    is_jump inst' = true -> Z.to_nat (Arg inst') <> t).
  { intros k inst' Hk. rewrite lookup_drop in Hk.
    apply (Hlater (S j + k)%nat inst'); [lia | exact Hk]. }
  assert (Hsil : forall k inst', drop (S j) instructions !! k = Some inst' ->
                   (S j + k)%nat = t -> silent inst' = true).
  { intros k inst' Hk Heq. rewrite lookup_drop, Heq in Hk.
    destruct Hwhere as [Hle | (tgt & Htgt & Hs)]; [lia | congruence]. }
  rewrite (Disassemble_loop_stays _ t _ _ _ _ _ _
             (forallb_well_typed_drop (S j) _ Hty) Hargs Hsil Hsuf).
  rewrite (Disassemble_body_own _ _ _ _ _ Hc), Hjump in Hb. cbv zeta in Hb.
  destruct (Z.ltb_spec (Arg inst) (Z.of_nat (length dis0))) as [Hin |]; [| done].
  injection Hb as <- <-. apply list_lookup_insert_eq.
  destruct (own_entry _ _ _); rewrite ?length_insert; lia.
Qed.

Lemma Disassemble_jump_target_witness :
  [Some (DisassembleJumpInstruction 1 8 "a" 2); Some (DisassembleInstruction 2 1);
   Some (DisassembleJumpTarget "a" 3); Some (DisassembleJumpInstruction 3 9 "a" 2)]
    !! Z.to_nat (Arg (mkInstruction 0 9 0 2))
  = Some (Some (DisassembleJumpTarget
                  (default EmptyString
                     (MakeLabels [mkInstruction 0 8 0 2; mkInstruction 0 1 0 0;
                                  mkInstruction 0 13 0 0; mkInstruction 0 9 0 2]
                        !! Arg (mkInstruction 0 9 0 2)))
                  (Z.of_nat 3))).
Proof.
  apply (Disassemble_jump_target
           [mkInstruction 0 8 0 2; mkInstruction 0 1 0 0; mkInstruction 0 13 0 0;
            mkInstruction 0 9 0 2]
           _ 3 (mkInstruction 0 9 0 2));
    [reflexivity | reflexivity | reflexivity | reflexivity | |].
  - intros m inst' Hm Hl _. destruct m as [| [| [| [| m]]]]; try lia. done.
  - left. simpl. lia.
Defined.

(** X7. A slot that stores nothing of its own (JUMP_TGT without comment
    flag, or an opcode without a mnemonic) and that no jump-family
    instruction names is left unset ([nil]) in the output of
    [Disassemble]. *)
Theorem Disassemble_silent_slot instructions out t tgt :
  forallb well_typed instructions = true ->
  Disassemble instructions = Some out ->
  instructions !! t = Some tgt -> silent tgt = true ->
  (forall m inst', instructions !! m = Some inst' ->
                   is_jump inst' = true -> Z.to_nat (Arg inst') <> t) ->
  out !! t = Some None.
Proof.
  intros Hty Hout Ht Hs Hnone.
  pose proof (lookup_lt_Some _ _ _ Ht) as Hlt.
  unfold Disassemble in Hout.
  destruct (Disassemble_loop _ _ _ _) as [[dis n]|] eqn:Hloop; [| done].
  injection Hout as <-.
  assert (Hsil : forall k inst', instructions !! k = Some inst' ->
                   (0 + k)%nat = t -> silent inst' = true).
  { intros k inst' Hk Heq. rewrite Nat.add_0_l in Heq. subst k. congruence. }
  rewrite (Disassemble_loop_stays _ t _ _ _ _ _ _ Hty Hnone Hsil Hloop).
  by apply lookup_replicate_2.
Qed.

Lemma Disassemble_silent_slot_witness :
  [Some (DisassembleInstruction 1 0); None; Some (DisassembleInstruction 2 1)] !! 1%nat
  = Some None.
Proof.
  apply (Disassemble_silent_slot
           [mkInstruction 0 0 0 0; mkInstruction 0 13 0 0; mkInstruction 0 1 0 0]
           _ 1 (mkInstruction 0 13 0 0));
    [reflexivity | reflexivity | reflexivity | reflexivity |].
  intros m inst' Hm Hjump. destruct m as [| [| [| m]]]; try done;
    injection Hm as <-; discriminate.
Defined.

(** Every entry of a state of the loop is accounted for by the input. *)
Lemma Disassemble_prefix_justified instructions :
  forallb well_typed instructions = true ->
  forall k dis n,
    (k <= length instructions)%nat ->
    Disassemble_prefix instructions k = Some (dis, n) ->
    forall p e, dis !! p = Some (Some e) -> justified instructions p e.
Proof.
  intros Hty. induction k as [| k IH]; intros dis n Hk Hpre p e Hp.
  - unfold Disassemble_prefix in Hpre. cbn in Hpre. injection Hpre as <- <-.
    apply lookup_replicate in Hp as [? _]. done.
  - destruct (lookup_lt_is_Some_2 instructions k ltac:(lia)) as [inst Hi].
    destruct (Disassemble_prefix_inv _ _ _ _ Hi Hpre) as ([dis0 n0] & Hpre0 & Hb).
    pose proof (Disassemble_prefix_counter _ Hty k dis0 n0 ltac:(lia) Hpre0) as ->.
    specialize (IH dis0 _ ltac:(lia) Hpre0).
    destruct (well_typed_lookup _ _ _ Hty Hi) as [Hc Ha].
    rewrite (Disassemble_body_own _ _ _ _ _ Hc) in Hb. cbv zeta in Hb.
    assert (Hown : forall q e',
              match own_entry (MakeLabels instructions) (line_at instructions k) inst with
              | Some e0 => <[k := Some e0]> dis0
              | None => dis0
              end !! q = Some (Some e') -> justified instructions q e').
    { intros q e' Hq.
      destruct (own_entry _ _ inst) as [e0|] eqn:He0; [| by apply IH].
      destruct (decide (q = k)) as [-> | Hne].
      - apply list_lookup_insert_Some in Hq as [(_ & Heq & _) | (? & _)]; [| done].
        injection Heq as <-. left. by exists inst.
      - rewrite list_lookup_insert_ne in Hq by done. by apply IH. }
    destruct (is_jump inst) eqn:Hjump.
    + destruct (Arg inst <? Z.of_nat (length dis0)); [| done].
      injection Hb as <- <-.
      destruct (decide (p = Z.to_nat (Arg inst))) as [-> | Hne].
      * apply list_lookup_insert_Some in Hp as [(_ & Heq & _) | (? & _)]; [| done].
        injection Heq as <-. right. by exists k, inst.
      * rewrite list_lookup_insert_ne in Hp by done. by apply Hown.
    + injection Hb as <- <-. by apply Hown.
Qed.

Lemma Disassemble_out_justified instructions out :
  forallb well_typed instructions = true ->
  Disassemble instructions = Some out ->
  forall p e, out !! p = Some (Some e) -> justified instructions p e.
Proof.
  intros Hty Hout. rewrite Disassemble_prefix_all in Hout.
  destruct (Disassemble_prefix instructions (length instructions)) as [[dis n]|] eqn:Hpre;
    [| done].
  injection Hout as <-.
  exact (Disassemble_prefix_justified _ Hty (length instructions) dis n
           (Nat.le_refl _) Hpre).
Qed.

(** X8. [Disassemble] invents nothing: every entry of its output is either
    the own entry of its slot or a JumpTarget written by a jump-family
    instruction that names the slot, labelled as [MakeLabels] labels it.  In
    particular every JumpInstruction entry sits at the slot of a jump-family
    instruction, and its [Target] is a valid index into the output. *)
Theorem Disassemble_entries_justified instructions out :
  forallb well_typed instructions = true ->
  Disassemble instructions = Some out ->
  (forall p e, out !! p = Some (Some e) -> justified instructions p e) /\
  (forall p line op label target,
     out !! p = Some (Some (DisassembleJumpInstruction line op label target)) ->
     0 <= target < Z.of_nat (length out) /\
     exists inst, instructions !! p = Some inst /\ is_jump inst = true /\
                  op = Op inst /\ target = Arg inst /\ line = line_at instructions p).
Proof.
  intros Hty Hout.
  pose proof (Disassemble_out_justified _ _ Hty Hout) as Hjust.
  split; [exact Hjust |].
  intros p line op label target Hp.
  destruct (Hjust _ _ Hp) as [(inst & Hi & Hown) | (j & inst & _ & _ & _ & Heq)];
    [| discriminate].
  destruct (well_typed_lookup _ _ _ Hty Hi) as [Hc Ha].
  assert (Hjump : is_jump inst = true /\ op = Op inst /\ target = Arg inst
                  /\ line = line_at instructions p).
  { rewrite (is_jump_member _ Hc). unfold own_entry in Hown.
    destruct (Comment inst >? 0); [discriminate |].
    destruct (Op inst =? OP_JUMP_TGT); [discriminate |].
    destruct (WithLabel_Member (Op inst)).
    - by injection Hown as <- <- <- <-.
    - repeat case_match; discriminate. }
  destruct Hjump as (Hjump & -> & -> & ->).
  split; [| by exists inst].
  split; [exact Ha |].
  rewrite (Disassemble_length_of _ _ Hout).
  destruct (jumps_in_range instructions) eqn:Hrange.
  - unfold jumps_in_range in Hrange. rewrite forallb_forall in Hrange.
    specialize (Hrange inst (proj1 (list_elem_of_In _ _) (list_elem_of_lookup_2 _ _ _ Hi))).
    rewrite Hjump in Hrange. simpl in Hrange. lia.
  - rewrite (Disassemble_panic _ Hrange) in Hout. discriminate.
Qed.

Lemma Disassemble_entries_justified_witness :
  (forall p e,
     [Some (DisassembleJumpInstruction 1 8 "a" 2); Some (DisassembleInstruction 2 1);
      Some (DisassembleJumpTarget "a" 0)] !! p = Some (Some e) ->
     justified [mkInstruction 0 8 0 2; mkInstruction 0 1 0 0; mkInstruction 0 13 0 0] p e) /\
  (forall p line op label target,
     [Some (DisassembleJumpInstruction 1 8 "a" 2); Some (DisassembleInstruction 2 1);
      Some (DisassembleJumpTarget "a" 0)] !! p
     = Some (Some (DisassembleJumpInstruction line op label target)) ->
     0 <= target < Z.of_nat 3 /\
     exists inst,
       [mkInstruction 0 8 0 2; mkInstruction 0 1 0 0; mkInstruction 0 13 0 0] !! p
       = Some inst /\ is_jump inst = true /\
       op = Op inst /\ target = Arg inst /\
       line = line_at [mkInstruction 0 8 0 2; mkInstruction 0 1 0 0;
                       mkInstruction 0 13 0 0] p).
Proof.
  apply (Disassemble_entries_justified
           [mkInstruction 0 8 0 2; mkInstruction 0 1 0 0; mkInstruction 0 13 0 0]);
    reflexivity.
Defined.

(** An entry, once set, is never unset. *)
Lemma Disassemble_body_set labels j inst dis n dis' n' p e :
  0 <= Comment inst ->
  Disassemble_body labels j inst (dis, n) = Some (dis', n') ->
  dis !! p = Some (Some e) -> exists e', dis' !! p = Some (Some e').
Proof.
  intros Hc. rewrite (Disassemble_body_own _ _ _ _ _ Hc). cbv zeta. intros Hb Hp.
  assert (Hown : exists e', match own_entry labels n inst with
                            | Some e0 => <[j := Some e0]> dis
                            | None => dis
                            end !! p = Some (Some e')).
  { destruct (own_entry labels n inst) as [e0|]; [| by exists e].
    destruct (decide (p = j)) as [-> | Hne].
    - exists e0. apply list_lookup_insert_eq. by apply lookup_lt_Some in Hp.
    - exists e. by rewrite list_lookup_insert_ne. }
  destruct Hown as [e1 He1].
  destruct (is_jump inst).
  - destruct (Arg inst <? Z.of_nat (length dis)); [| done]. injection Hb as <- <-.
    destruct (decide (p = Z.to_nat (Arg inst))) as [-> | Hne].
    + eexists. apply list_lookup_insert_eq. by apply lookup_lt_Some in He1.
    + exists e1. by rewrite list_lookup_insert_ne.
  - injection Hb as <- <-. by exists e1.
Qed.

Lemma Disassemble_loop_set labels rest : forall j dis n dis' n' p e,
  forallb well_typed rest = true ->
  Disassemble_loop labels rest j (dis, n) = Some (dis', n') ->
  dis !! p = Some (Some e) -> exists e', dis' !! p = Some (Some e').
Proof.
  induction rest as [| inst rest IH]; cbn [Disassemble_loop forallb];
    intros j dis n dis' n' p e Hty Hloop Hp.
  - injection Hloop as <- <-. by exists e.
  - apply andb_true_iff in Hty as [Hty1 Hty].
    apply well_typed_spec in Hty1 as (Hc & _).
    destruct (Disassemble_body labels j inst (dis, n)) as [[dis1 n1]|] eqn:Hb; [| done].
    destruct (Disassemble_body_set _ _ _ _ _ _ _ _ _ Hc Hb Hp) as [e1 He1].
    exact (IH _ _ _ _ _ _ _ Hty Hloop He1).
Qed.

(** X9. A jump and its target agree on a label of the sequence.  When a
    jump-family instruction names a JUMP_TGT slot without comment flag (and
    no jump names the slot of the jump itself), its entry in the output of
    [Disassemble] is a JumpInstruction whose label is the label of the
    target's rank among the JUMP_TGT slots, and the target's entry is a
    JumpTarget with that same label whose [Jumpee] is a jump-family
    instruction naming the slot. *)
Theorem Disassemble_jump_resolved instructions out j inst tgt :
  forallb well_typed instructions = true ->
  Z.of_nat (length instructions) <= 2 ^ 32 ->
  Disassemble instructions = Some out ->
  instructions !! j = Some inst -> is_jump inst = true ->
  instructions !! Z.to_nat (Arg inst) = Some tgt ->
  Op tgt = OP_JUMP_TGT -> Comment tgt = 0 ->
  (forall m inst', instructions !! m = Some inst' -> is_jump inst' = true ->
                   Z.to_nat (Arg inst') <> j) ->
  out !! j
  = Some (Some (DisassembleJumpInstruction (line_at instructions j) (Op inst)
                  (nth_label (target_count (take (Z.to_nat (Arg inst)) instructions)))
                  (Arg inst))) /\
  exists j' inst',
    out !! Z.to_nat (Arg inst)
    = Some (Some (DisassembleJumpTarget
                    (nth_label (target_count (take (Z.to_nat (Arg inst)) instructions)))
                    (Z.of_nat j'))) /\
    instructions !! j' = Some inst' /\ is_jump inst' = true /\
    Z.to_nat (Arg inst') = Z.to_nat (Arg inst).
Proof.
  intros Hty Hlen Hout Hj Hjump Ht Hop Hflag Hnone.
  destruct (well_typed_lookup _ _ _ Hty Hj) as [Hc Ha].
  set (t := Z.to_nat (Arg inst)) in *.
  assert (Hlabel : forall a, 0 <= a -> Z.to_nat a = t ->
            default EmptyString (MakeLabels instructions !! a)
            = nth_label (target_count (take t instructions))).
  { intros a Ha0 Hat. replace a with (Z.of_nat t) by lia.
    by rewrite (MakeLabels_at_target _ _ _ Hlen Ht Hop). }
  split.
  - apply (Disassemble_own_entry_kept instructions out j inst); try done.
    + unfold own_entry. destruct (is_jump_true_cases _ Hjump) as (-> & -> & Hops).
      rewrite WithLabel_Member_spec, Hops. by rewrite (Hlabel (Arg inst)).
    + intros m inst' _. apply Hnone.
  - (* the slot is set by the jump at [j] and stays set *)
    destruct (Disassemble_split _ _ _ _ Hj Hout)
      as (dis0 & n0 & dis1 & n1 & n2 & Hpre & Hb & Hsuf).
    assert (Hset : exists e1, dis1 !! t = Some (Some e1)).
    { rewrite (Disassemble_body_own _ _ _ _ _ Hc), Hjump in Hb. cbv zeta in Hb.
      destruct (Z.ltb_spec (Arg inst) (Z.of_nat (length dis0))); [| done].
      injection Hb as <- <-. eexists. apply list_lookup_insert_eq.
      destruct (own_entry _ _ _); rewrite ?length_insert; lia. }
    destruct Hset as [e1 He1].
    destruct (Disassemble_loop_set _ _ _ _ _ _ _ _ _
                (forallb_well_typed_drop (S j) _ Hty) Hsuf He1) as [e2 He2].
    destruct (Disassemble_out_justified _ _ Hty Hout _ _ He2)
      as [(inst0 & Hi0 & Hown) | (j' & inst' & Hj' & Hjump' & Harg' & ->)].
    + exfalso. rewrite Ht in Hi0. injection Hi0 as <-.
      assert (Hs : silent tgt = true).
      { unfold silent. rewrite Hflag, Hop, Z.eqb_refl. reflexivity. }
      apply (own_entry_None (MakeLabels instructions) (line_at instructions t)) in Hs.
      congruence.
    + exists j', inst'. split; [| done].
      destruct (well_typed_lookup _ _ _ Hty Hj') as [_ Ha'].
      by rewrite He2, (Hlabel (Arg inst') Ha' Harg').
Qed.

Lemma Disassemble_jump_resolved_witness :
  [Some (DisassembleJumpInstruction 1 8 "a" 2); Some (DisassembleInstruction 2 1);
   Some (DisassembleJumpTarget "a" 3); Some (DisassembleJumpInstruction 3 9 "a" 2)]
    !! 0%nat
  = Some (Some (DisassembleJumpInstruction
                  (line_at [mkInstruction 0 8 0 2; mkInstruction 0 1 0 0;
                            mkInstruction 0 13 0 0; mkInstruction 0 9 0 2] 0)
                  (Op (mkInstruction 0 8 0 2))
                  (nth_label (target_count
                     (take (Z.to_nat (Arg (mkInstruction 0 8 0 2)))
                        [mkInstruction 0 8 0 2; mkInstruction 0 1 0 0;
                         mkInstruction 0 13 0 0; mkInstruction 0 9 0 2])))
                  (Arg (mkInstruction 0 8 0 2)))) /\
  exists j' inst',
    [Some (DisassembleJumpInstruction 1 8 "a" 2); Some (DisassembleInstruction 2 1);
     Some (DisassembleJumpTarget "a" 3); Some (DisassembleJumpInstruction 3 9 "a" 2)]
      !! Z.to_nat (Arg (mkInstruction 0 8 0 2))
    = Some (Some (DisassembleJumpTarget
                    (nth_label (target_count
                       (take (Z.to_nat (Arg (mkInstruction 0 8 0 2)))
                          [mkInstruction 0 8 0 2; mkInstruction 0 1 0 0;
                           mkInstruction 0 13 0 0; mkInstruction 0 9 0 2])))
                    (Z.of_nat j'))) /\
    [mkInstruction 0 8 0 2; mkInstruction 0 1 0 0; mkInstruction 0 13 0 0;
     mkInstruction 0 9 0 2] !! j' = Some inst' /\
    is_jump inst' = true /\
    Z.to_nat (Arg inst') = Z.to_nat (Arg (mkInstruction 0 8 0 2)).
Proof.
  apply (Disassemble_jump_resolved
           [mkInstruction 0 8 0 2; mkInstruction 0 1 0 0; mkInstruction 0 13 0 0;
            mkInstruction 0 9 0 2]
           _ 0 (mkInstruction 0 8 0 2) (mkInstruction 0 13 0 0));
    try reflexivity.
  - vm_compute. discriminate.
  - intros m inst' Hm Hjump.
    destruct m as [| [| [| [| m]]]]; try done; injection Hm as <-;
      (discriminate || (simpl; lia)).
Defined.

End DisassembleEntryTheorems.

(** ** DecodeInstructions *)

Section DecodeInstructionsProps.
Import Instructions Props.

Implicit Types (r : Reader) (buffer : list byte).

Lemma Read_ok n r :
  0 <= offset r -> offset r < Z.of_nat (length (contents r)) ->
  Read n r
  = Some (take n (drop (Z.to_nat (offset r)) (contents r)),
          mkReader (contents r)
            (offset r + Z.of_nat (min n (length (contents r) - Z.to_nat (offset r))))).
Proof.
  intros H0 Hlt. unfold Read.
  replace ((0 <=? offset r) && (offset r <? Z.of_nat (length (contents r)))) with true
    by (symmetry; apply andb_true_iff; lia).
  cbv zeta. by rewrite length_take, length_drop.
Qed.

Lemma Read_eof n r :
  Z.of_nat (length (contents r)) <= offset r -> Read n r = None.
Proof.
  intros Hge. unfold Read.
  destruct (Z.ltb_spec (offset r) (Z.of_nat (length (contents r)))); [lia |].
  by rewrite andb_false_r.
Qed.

Lemma byte_at_window (c : list byte) o k :
  (k < 16)%nat -> byte_at (take 16 (drop o c)) k = byte_at c (o + k).
Proof.
  intros Hk. unfold byte_at. by rewrite !nth_lookup, lookup_take_lt, lookup_drop.
Qed.

Lemma decode_instruction_window (c : list byte) o :
  decode_instruction (take 16 (drop o c)) = record_at c o.
Proof.
  unfold decode_instruction, record_at, uint32_at.
  rewrite !byte_at_window by lia.
  repeat match goal with
         | |- context [(o + ?a + ?b)%nat] =>
             replace (o + a + b)%nat with (o + (a + b))%nat by lia
         end.
  cbn [Nat.add]. by rewrite Nat.add_0_r.
Qed.

Lemma read_uint32_at r v r' :
  read_uint32 r = Some (v, r') -> v = uint32_at (contents r) (Z.to_nat (offset r)).
Proof.
  unfold read_uint32, read_full.
  destruct ((0 <=? offset r) && _) eqn:Hb; [| done].
  destruct (take 4 (drop (Z.to_nat (offset r)) (contents r)))
    as [| b0 [| b1 [| b2 [| b3 [| b4 bs]]]]] eqn:Ht; try done.
  intros [= <- <-]. unfold uint32_at, byte_at.
  assert (Hk : forall k b, [b0; b1; b2; b3] !! k = Some b ->
                 nth (Z.to_nat (offset r) + k) (contents r) x00 = b).
  { intros k b Hk. rewrite <- Ht in Hk.
    apply lookup_take_Some in Hk as [Hk _]. rewrite lookup_drop in Hk.
    by apply nth_lookup_Some. }
  rewrite <- (Nat.add_0_r (Z.to_nat (offset r))) at 1.
  by rewrite (Hk 0%nat b0), (Hk 1%nat b1), (Hk 2%nat b2), (Hk 3%nat b3).
Qed.

(** The loop on a stream that holds all [n] records. *)
Lemma DecodeInstructions_loop_full n : forall buffer r,
  length buffer = 16%nat ->
  0 <= offset r ->
  offset r + 16 * Z.of_nat n <= Z.of_nat (length (contents r)) ->
  DecodeInstructions_loop n buffer r
  = Some (map (fun i => record_at (contents r) (Z.to_nat (offset r) + 16 * i)) (seq 0 n),
          mkReader (contents r) (offset r + 16 * Z.of_nat n)).
Proof.
  induction n as [| n IH]; intros buffer r Hbuf H0 Hfit; cbn [DecodeInstructions_loop].
  - destruct r as [c o]. cbn. do 2 f_equal. f_equal. lia.
  - rewrite Read_ok by lia.
    replace (min 16 (length (contents r) - Z.to_nat (offset r))) with 16%nat by lia.
    set (bs := take 16 (drop (Z.to_nat (offset r)) (contents r))).
    assert (Hbs : length bs = 16%nat).
    { unfold bs. rewrite length_take, length_drop. lia. }
    cbv zeta. rewrite Hbs, (drop_ge buffer 16) by lia. rewrite app_nil_r.
    rewrite IH; cbn [offset contents]; [| done | lia | lia].
    unfold bs. rewrite decode_instruction_window.
    cbn [seq map]. rewrite <- seq_shift, map_map.
    replace (offset r + Z.of_nat 16 + 16 * Z.of_nat n)
      with (offset r + 16 * Z.of_nat (S n)) by lia.
    replace (Z.to_nat (offset r) + 16 * 0)%nat with (Z.to_nat (offset r)) by lia.
    rewrite (map_ext
               (fun i => record_at (contents r)
                           (Z.to_nat (offset r + Z.of_nat 16) + 16 * i))
               (fun i => record_at (contents r) (Z.to_nat (offset r) + 16 * S i)));
      [reflexivity |].
    intros i. f_equal. lia.
Qed.

(** X10. On a reader that delivers every byte asked for while that many
    remain (as [bytes.Reader] and [os.File] do, and as [Read] models; a
    buffered reader that is short in mid-stream is not covered): when the
    stream holds the count word and all the records it declares,
    [DecodeInstructions] returns that many records, the i-th made of the
    four little-endian words at byte 4 + 16*i after the start, and leaves
    the stream right after the last record. *)
Theorem DecodeInstructions_records r N r1 :
  read_uint32 r = Some (N, r1) ->
  offset r + 4 + 16 * N <= Z.of_nat (length (contents r)) ->
  exists instructions r',
    DecodeInstructions r = Some (instructions, r') /\
    Z.of_nat (length instructions) = N /\
    N = uint32_at (contents r) (Z.to_nat (offset r)) /\
    contents r' = contents r /\
    offset r' = offset r + 4 + 16 * N /\
    forall i, (Z.of_nat i < N) ->
      instructions !! i
      = Some (record_at (contents r) (Z.to_nat (offset r) + 4 + 16 * i)).
Proof.
  intros HN Hfit.
  pose proof (read_uint32_at _ _ _ HN) as Hat.
  pose proof (read_uint32_inv _ _ _ HN) as (H0 & [HN0 _] & ->).
  unfold DecodeInstructions. rewrite HN.
  rewrite DecodeInstructions_loop_full; cbn [offset contents];
    [| by rewrite length_replicate | lia | lia].
  eexists _, _. split; [reflexivity |]. cbn [offset contents].
  split; [rewrite length_map, length_seq; lia |].
  split; [exact Hat |]. split; [reflexivity |]. split; [lia |].
  intros i Hi. rewrite list_lookup_fmap, lookup_seq_lt by lia.
  cbn [fmap option_fmap option_map Nat.add].
  by replace (Z.to_nat (offset r + 4) + 16 * i)%nat
    with (Z.to_nat (offset r) + 4 + 16 * i)%nat by lia.
Qed.

Lemma DecodeInstructions_records_witness :
  exists instructions r',
    DecodeInstructions (mkReader sample_tab 0) = Some (instructions, r') /\
    Z.of_nat (length instructions) = 2 /\
    2 = uint32_at sample_tab (Z.to_nat 0) /\
    contents r' = sample_tab /\
    offset r' = 0 + 4 + 16 * 2 /\
    forall i, (Z.of_nat i < 2) ->
      instructions !! i = Some (record_at sample_tab (Z.to_nat 0 + 4 + 16 * i)).
Proof.
  apply (DecodeInstructions_records (mkReader sample_tab 0) 2 (mkReader sample_tab 4)).
  - reflexivity.
  - vm_compute. discriminate.
Defined.

Example DecodeInstructions_sample :
  DecodeInstructions (mkReader sample_tab 0)
  = Some ([mkInstruction 0 8 1 1; mkInstruction 0 1 0 0], mkReader sample_tab 36).
Proof. reflexivity. Qed.

(** The loop on a stream that ends at or before the first byte of the last
    record. *)
Lemma DecodeInstructions_loop_eof n : forall buffer r,
  0 <= offset r -> (0 < n)%nat ->
  Z.of_nat (length (contents r)) <= offset r + 16 * (Z.of_nat n - 1) ->
  DecodeInstructions_loop n buffer r = None.
Proof.
  induction n as [| n IH]; intros buffer r H0 Hn Hend; [lia |].
  cbn [DecodeInstructions_loop].
  destruct (decide (offset r < Z.of_nat (length (contents r)))) as [Hlt | Hge];
    [| by rewrite Read_eof by lia].
  rewrite Read_ok by lia. cbv zeta.
  destruct n as [| n]; [lia |].
  rewrite IH; cbn [offset contents]; [done | lia | lia | lia].
Qed.

(** X11. On a reader that delivers every byte asked for while that many
    remain (as [bytes.Reader] and [os.File] do, and as [Read] models; a
    buffered reader that is short in mid-stream is not covered):
    [DecodeInstructions] returns an error when fewer than four bytes are
    left for the count word, and when the stream ends at or before the first
    byte of the last record that the count declares. *)
Theorem DecodeInstructions_truncated r :
  (Z.of_nat (length (contents r)) < offset r + 4 -> DecodeInstructions r = None) /\
  (forall N r1,
     read_uint32 r = Some (N, r1) -> 0 < N ->
     Z.of_nat (length (contents r)) <= offset r + 4 + 16 * (N - 1) ->
     DecodeInstructions r = None).
Proof.
  split.
  - intros Hshort. unfold DecodeInstructions, read_uint32, read_full.
    destruct (Z.leb_spec (offset r + Z.of_nat 4) (Z.of_nat (length (contents r))));
      [lia |].
    by rewrite andb_false_r.
  - intros N r1 HN Hpos Hend. unfold DecodeInstructions. rewrite HN.
    apply read_uint32_inv in HN as (H0 & _ & ->).
    apply DecodeInstructions_loop_eof; cbn [offset contents]; lia.
Qed.

Lemma DecodeInstructions_truncated_witness :
  DecodeInstructions (mkReader sample_tab 34) = None /\
  DecodeInstructions (mkReader (take 20 sample_tab) 0) = None.
Proof.
  split.
  - apply (proj1 (DecodeInstructions_truncated (mkReader sample_tab 34))).
    vm_compute. reflexivity.
  - apply (proj2 (DecodeInstructions_truncated (mkReader (take 20 sample_tab) 0))
                 2 (mkReader (take 20 sample_tab) 4)).
    + reflexivity.
    + lia.
    + vm_compute. discriminate.
Defined.

(** The loop never looks at the number of bytes a read delivered. *)
Lemma DecodeInstructions_loop_short n : forall buffer r,
  0 <= offset r -> (0 < n)%nat ->
  offset r + 16 * (Z.of_nat n - 1) < Z.of_nat (length (contents r)) ->
  exists instructions,
    DecodeInstructions_loop n buffer r
    = Some (instructions,
            mkReader (contents r)
              (Z.min (Z.of_nat (length (contents r))) (offset r + 16 * Z.of_nat n))) /\
    length instructions = n.
Proof.
  induction n as [| n IH]; intros buffer r H0 Hn Hlt; [lia |].
  cbn [DecodeInstructions_loop]. rewrite Read_ok by lia. cbv zeta.
  destruct n as [| n].
  - cbn [DecodeInstructions_loop].
    replace (Z.min (Z.of_nat (length (contents r))) (offset r + 16 * Z.of_nat 1))
      with (offset r + Z.of_nat (min 16 (length (contents r) - Z.to_nat (offset r))))
      by lia.
    eexists. split; reflexivity.
  - edestruct (IH (take 16 (drop (Z.to_nat (offset r)) (contents r))
                   ++ drop (length (take 16 (drop (Z.to_nat (offset r)) (contents r))))
                        buffer)
                  (mkReader (contents r)
                     (offset r + Z.of_nat (min 16 (length (contents r)
                                                   - Z.to_nat (offset r))))))
      as (instructions & Hloop & Hlen); cbn [offset contents]; [lia | lia | lia |].
    cbn [offset contents] in Hloop. rewrite Hloop.
    replace (Z.min (Z.of_nat (length (contents r)))
               (offset r + Z.of_nat (min 16 (length (contents r) - Z.to_nat (offset r)))
                + 16 * Z.of_nat (S n)))
      with (Z.min (Z.of_nat (length (contents r))) (offset r + 16 * Z.of_nat (S (S n))))
      by lia.
    eexists. split; [reflexivity |]. cbn [length]. by rewrite Hlen.
Qed.

(** X12. [DecodeInstructions] does not check how many bytes a read
    delivered.  On a reader that delivers a short final read without error,
    a stream that ends inside the last declared record, with at least one
    byte of it present, is decoded without error into the declared number of
    records, and the stream is left at its end. *)
Theorem DecodeInstructions_short_read r N r1 :
  read_uint32 r = Some (N, r1) -> 0 < N ->
  offset r + 4 + 16 * (N - 1) < Z.of_nat (length (contents r)) ->
  Z.of_nat (length (contents r)) < offset r + 4 + 16 * N ->
  exists instructions,
    DecodeInstructions r
    = Some (instructions, mkReader (contents r) (Z.of_nat (length (contents r)))) /\
    Z.of_nat (length instructions) = N.
Proof.
  intros HN Hpos Hlo Hhi. unfold DecodeInstructions. rewrite HN.
  apply read_uint32_inv in HN as (H0 & [HN0 _] & ->).
  destruct (DecodeInstructions_loop_short (Z.to_nat N) (replicate 16 x00)
              (mkReader (contents r) (offset r + 4)))
    as (instructions & Hloop & Hlen); cbn [offset contents] in *; [lia | lia | lia |].
  rewrite Hloop. exists instructions. split; [| lia].
  by replace (Z.min (Z.of_nat (length (contents r)))
                (offset r + 4 + 16 * Z.of_nat (Z.to_nat N)))
    with (Z.of_nat (length (contents r))) by lia.
Qed.

Lemma DecodeInstructions_short_read_witness :
  exists instructions,
    DecodeInstructions (mkReader sample_tab_cut 0)
    = Some (instructions, mkReader sample_tab_cut (Z.of_nat (length sample_tab_cut))) /\
    Z.of_nat (length instructions) = 2.
Proof.
  apply (DecodeInstructions_short_read (mkReader sample_tab_cut 0) 2
           (mkReader sample_tab_cut 4)).
  - reflexivity.
  - lia.
  - vm_compute. reflexivity.
  - vm_compute. reflexivity.
Defined.

(** On the cut block the second record is made of the five bytes that were
    read and of the bytes that the first record left in the buffer. *)
Example DecodeInstructions_stale_bytes :
  DecodeInstructions (mkReader sample_tab_cut 0)
  = Some ([mkInstruction 0 8 1 1; mkInstruction 0 1 1 1], mkReader sample_tab_cut 25).
Proof. reflexivity. Qed.

End DecodeInstructionsProps.

(** ** Comment blocks: whole block, truncation, contents *)

Section CommentBlocks.
Import Instructions Render Props.

Implicit Types (r : Reader) (pre post rest : list byte) (pts : list RawPoint).

(** X13. On a comment block of M records, each declaring at most 256
    entries, that the stream holds in full, [DecodeRawComments] returns M
    comments and leaves the stream 4 + 1028*M bytes after the start of the
    block. *)
Theorem DecodeRawComments_block r M r1 :
  read_uint32 r = Some (M, r1) ->
  (forall j, 0 <= j < M ->
     exists K rj,
       read_uint32 (mkReader (contents r) (offset r + 4 + 1028 * j)) = Some (K, rj) /\
       K <= 256) ->
  offset r + 4 + 1028 * M <= Z.of_nat (length (contents r)) ->
  exists comments r',
    DecodeRawComments r = Some (comments, r') /\
    Z.of_nat (length comments) = M /\
    contents r' = contents r /\
    offset r' = offset r + 4 + 1028 * M.
Proof.
  intros HM Hcounts Hfit. unfold DecodeRawComments. rewrite HM.
  apply read_uint32_inv in HM as (H0 & [HM0 _] & ->).
  destruct (DecodeRawComments_loop_advance (Z.to_nat M)
              (mkReader (contents r) (offset r + 4)))
    as (cs & r' & Hloop & Hlen & Hc & Ho); cbn [offset contents] in *.
  - lia.
  - intros j Hj. destruct (Hcounts j ltac:(lia)) as (K & rj & HK & Hs).
    exists K, rj. split; [exact HK | exact Hs].
  - lia.
  - exists cs, r'. split; [exact Hloop |]. split; [lia |]. split; [exact Hc | lia].
Qed.

Lemma DecodeRawComments_block_witness :
  exists comments r',
    DecodeRawComments (mkReader sample_block 0) = Some (comments, r') /\
    Z.of_nat (length comments) = 1 /\
    contents r' = sample_block /\
    offset r' = 0 + 4 + 1028 * 1.
Proof.
  apply (DecodeRawComments_block (mkReader sample_block 0) 1 (mkReader sample_block 4)).
  - reflexivity.
  - intros j Hj. assert (j = 0) as -> by lia.
    exists 2, (mkReader sample_block 8). split; [reflexivity | lia].
  - vm_compute. discriminate.
Defined.

Lemma read_full_short n r :
  Z.of_nat (length (contents r)) < offset r + Z.of_nat n -> read_full n r = None.
Proof.
  intros Hshort. unfold read_full.
  destruct (Z.leb_spec (offset r + Z.of_nat n) (Z.of_nat (length (contents r)))); [lia |].
  by rewrite andb_false_r.
Qed.

Lemma read_raw_points_short n : forall r,
  0 <= offset r <= Z.of_nat (length (contents r)) ->
  Z.of_nat (length (contents r)) < offset r + 4 * Z.of_nat n ->
  read_raw_points n r = None.
Proof.
  induction n as [| n IH]; intros r H0 Hshort; [lia |].
  cbn [read_raw_points].
  destruct (decide (offset r + 4 <= Z.of_nat (length (contents r)))) as [Hfit | Hno].
  - destruct (read_raw_point_ok r ltac:(lia) Hfit) as [p ->].
    rewrite IH; cbn [offset contents]; [done | lia | lia].
  - unfold read_raw_point. by rewrite read_full_short by lia.
Qed.

(** X14. [DecodeRawComments] returns an error at a record whose declared
    entries are not all present in the stream. *)
Theorem DecodeRawComment_truncated r K r1 :
  read_uint32 r = Some (K, r1) ->
  Z.of_nat (length (contents r)) < offset r + 4 + 4 * K ->
  DecodeRawComment r = None /\
  forall n, (0 < n)%nat -> DecodeRawComments_loop n r = None.
Proof.
  intros HK Hshort.
  assert (Hnone : DecodeRawComment r = None).
  { unfold DecodeRawComment. rewrite HK.
    assert (Hfit : offset r + 4 <= Z.of_nat (length (contents r))).
    { destruct (decide (offset r + 4 <= Z.of_nat (length (contents r)))); [done |].
      unfold read_uint32 in HK. by rewrite read_full_short in HK by lia. }
    apply read_uint32_inv in HK as (H0 & [HK0 _] & ->).
    rewrite read_raw_points_short; cbn [offset contents]; [done | lia | lia]. }
  split; [exact Hnone |].
  intros [| n] Hn; [lia |]. cbn [DecodeRawComments_loop]. by rewrite Hnone.
Qed.

Lemma DecodeRawComment_truncated_witness :
  DecodeRawComment (mkReader (take 14 sample_block) 4) = None /\
  forall n, (0 < n)%nat ->
    DecodeRawComments_loop n (mkReader (take 14 sample_block) 4) = None.
Proof.
  apply (DecodeRawComment_truncated (mkReader (take 14 sample_block) 4) 2
           (mkReader (take 14 sample_block) 8)).
  - reflexivity.
  - vm_compute. reflexivity.
Defined.

(** *** Writing and reading back *)

Lemma byte_val_of z : byte_val (byte_of z) = z mod 256.
Proof.
  unfold byte_val, byte_of.
  pose proof (Z.mod_pos_bound z 256 ltac:(lia)) as Hm.
  destruct (Byte.of_N (Z.to_N (z mod 256))) as [b|] eqn:Hb.
  - apply Byte.to_of_N in Hb. rewrite Hb. lia.
  - apply Byte.of_N_None_iff in Hb. lia.
Qed.

Lemma uint32_bytes_value v :
  0 <= v < 2 ^ 32 ->
  byte_val (byte_of v) + 2 ^ 8 * byte_val (byte_of (v / 2 ^ 8))
  + 2 ^ 16 * byte_val (byte_of (v / 2 ^ 16)) + 2 ^ 24 * byte_val (byte_of (v / 2 ^ 24))
  = v.
Proof.
  intros Hv. rewrite !byte_val_of.
  change (2 ^ 8) with 256. change (2 ^ 16) with 65536.
  change (2 ^ 24) with 16777216. change (2 ^ 32) with 4294967296 in Hv.
  Z.div_mod_to_equations. lia.
Qed.

Lemma read_full_app n pre (bs : list byte) post :
  length bs = n ->
  read_full n (mkReader (pre ++ bs ++ post) (Z.of_nat (length pre)))
  = Some (bs, mkReader (pre ++ bs ++ post) (Z.of_nat (length pre) + Z.of_nat n)).
Proof.
  intros Hn. unfold read_full. cbn [offset contents].
  rewrite !length_app.
  replace ((0 <=? Z.of_nat (length pre))
           && (Z.of_nat (length pre) + Z.of_nat n
               <=? Z.of_nat (length pre + (length bs + length post)))) with true
    by (symmetry; rewrite andb_true_iff, !Z.leb_le; lia).
  by rewrite Nat2Z.id, drop_app_length, <- Hn, take_app_length.
Qed.

Lemma read_uint32_app pre v post :
  0 <= v < 2 ^ 32 ->
  read_uint32 (mkReader (pre ++ uint32_bytes v ++ post) (Z.of_nat (length pre)))
  = Some (v, mkReader (pre ++ uint32_bytes v ++ post) (Z.of_nat (length pre) + 4)).
Proof.
  intros Hv. unfold read_uint32. rewrite (read_full_app 4) by reflexivity.
  unfold uint32_bytes. by rewrite uint32_bytes_value.
Qed.

Lemma read_raw_points_app pts : forall pre rest,
  read_raw_points (length pts)
    (mkReader (pre ++ concat (map point_bytes pts) ++ rest) (Z.of_nat (length pre)))
  = Some (pts, mkReader (pre ++ concat (map point_bytes pts) ++ rest)
                 (Z.of_nat (length pre) + 4 * Z.of_nat (length pts))).
Proof.
  induction pts as [| [[[b0 b1] b2] b3] pts IH]; intros pre rest.
  - cbn. first [reflexivity | do 3 f_equal; lia].
  - cbn [length read_raw_points map concat point_bytes].
    unfold read_raw_point.
    rewrite <- (app_assoc [b0; b1; b2; b3]).
    rewrite (read_full_app 4 pre [b0; b1; b2; b3]) by reflexivity.
    specialize (IH (pre ++ [b0; b1; b2; b3]) rest).
    rewrite <- !app_assoc, length_app in IH. cbn [length] in IH.
    replace (Z.of_nat (length pre) + Z.of_nat 4) with (Z.of_nat (length pre + 4)) by lia.
    rewrite IH. first [reflexivity | do 3 f_equal; lia].
Qed.

(** A record in the stream is read back as the entries that were written. *)
Lemma DecodeRawComment_stream pre pts rest :
  Z.of_nat (length pts) < 2 ^ 32 ->
  DecodeRawComment
    (mkReader (pre ++ uint32_bytes (Z.of_nat (length pts))
                   ++ concat (map point_bytes pts) ++ rest)
              (Z.of_nat (length pre)))
  = Some (pts,
          mkReader (pre ++ uint32_bytes (Z.of_nat (length pts))
                        ++ concat (map point_bytes pts) ++ rest)
            (Z.of_nat (length pre) + 4 + 4 * Z.of_nat (length pts)
             + padding_skip (Z.of_nat (length pts)))).
Proof.
  intros Hlen. unfold DecodeRawComment.
  rewrite read_uint32_app by lia. rewrite Nat2Z.id.
  pose proof (read_raw_points_app pts
                (pre ++ uint32_bytes (Z.of_nat (length pts))) rest) as Hpts.
  rewrite <- !app_assoc, length_app in Hpts.
  change (length (uint32_bytes (Z.of_nat (length pts)))) with 4%nat in Hpts.
  replace (Z.of_nat (length pre) + 4) with (Z.of_nat (length pre + 4)) by lia.
  rewrite Hpts. cbv zeta.
  pose proof (padding_skip_mod (Z.of_nat (length pts))) as Hskip.
  pose proof (Z.mod_pos_bound (1024 - 4 * Z.of_nat (length pts)) (2 ^ 32) ltac:(lia)).
  rewrite Seek_current_forward; cbn [offset contents]; [| lia | lia].
  first [reflexivity | do 3 f_equal; lia].
Qed.

(** X15. The entries that [DecodeRawComments] returns for a record are the
    entries stored in the stream: a count word followed by that many 4-byte
    entries is read back as exactly those entries, whatever precedes and
    follows the record. *)
Theorem DecodeRawComment_contents pre pts rest :
  Z.of_nat (length pts) < 2 ^ 32 ->
  exists r',
    DecodeRawComment
      (mkReader (pre ++ uint32_bytes (Z.of_nat (length pts))
                     ++ concat (map point_bytes pts) ++ rest)
                (Z.of_nat (length pre)))
    = Some (pts, r').
Proof. intros Hlen. eexists. by apply DecodeRawComment_stream. Qed.

Lemma DecodeRawComment_contents_witness :
  exists r',
    DecodeRawComment
      (mkReader ([x07] ++ uint32_bytes (Z.of_nat (length [pt x01; zero_point]))
                       ++ concat (map point_bytes [pt x01; zero_point]) ++ [x09; x09])
                (Z.of_nat (length [x07])))
    = Some ([pt x01; zero_point], r').
Proof.
  apply (DecodeRawComment_contents [x07] [pt x01; zero_point] [x09; x09]).
  vm_compute. reflexivity.
Defined.

Lemma comment_payload_length (comment : list RawPoint) :
  length (comment_payload comment)
  = (4 + 4 * length comment
     + 4 * Z.to_nat (1024 / 4 - 1 - Z.of_nat (length comment - 1)))%nat.
Proof.
  unfold comment_payload. rewrite !length_app.
  assert (Hpts : forall l : list RawPoint,
            length (concat (map point_bytes l)) = (4 * length l)%nat).
  { induction l as [| [[[? ?] ?] ?] l IH]; [done |]. cbn [map concat point_bytes].
    rewrite length_app, IH. cbn [length]. lia. }
  assert (Hz : forall k, length (concat (replicate k [x00; x00; x00; x00])) = (4 * k)%nat).
  { induction k as [| k IH]; [done |]. cbn [replicate concat].
    rewrite length_app, IH. cbn [length]. lia. }
  rewrite Hpts, Hz. reflexivity.
Qed.

(** X16. What [RenderCommentsText] hands to the compressor for a comment of
    1 to 256 entries is a full record of 1028 bytes that [DecodeRawComments]
    reads back as the same comment, advancing by the 1028 bytes.  For a
    comment without entries the data is 1024 bytes, one entry short of a
    record. *)
Theorem comment_payload_round_trip (comment : list RawPoint) pre post :
  (1 <= length comment <= 256)%nat ->
  length (comment_payload comment) = 1028%nat /\
  DecodeRawComment
    (mkReader (pre ++ comment_payload comment ++ post) (Z.of_nat (length pre)))
  = Some (comment,
          mkReader (pre ++ comment_payload comment ++ post)
            (Z.of_nat (length pre) + 1028)) /\
  length (comment_payload []) = 1024%nat.
Proof.
  intros Hlen. split; [| split; [| reflexivity]].
  - rewrite comment_payload_length. change (1024 / 4 - 1) with 255. lia.
  - unfold comment_payload. rewrite uint32_wrap_small by lia.
    rewrite <- !app_assoc.
    rewrite DecodeRawComment_stream by lia.
    do 3 f_equal.
    destruct (padding_skip_cases (Z.of_nat (length comment)) ltac:(lia)) as [Hlow _].
    rewrite Z.mod_small in Hlow by lia. rewrite Hlow by lia. lia.
Qed.

Lemma comment_payload_round_trip_witness :
  length (comment_payload [pt x01; pt x02; zero_point]) = 1028%nat /\
  DecodeRawComment
    (mkReader ([x07; x07] ++ comment_payload [pt x01; pt x02; zero_point] ++ [x09])
              (Z.of_nat (length [x07; x07])))
  = Some ([pt x01; pt x02; zero_point],
          mkReader ([x07; x07] ++ comment_payload [pt x01; pt x02; zero_point] ++ [x09])
            (Z.of_nat (length [x07; x07]) + 1028)) /\
  length (comment_payload []) = 1024%nat.
Proof.
  apply (comment_payload_round_trip [pt x01; pt x02; zero_point] [x07; x07] [x09]).
  simpl. lia.
Defined.

End CommentBlocks.

(** ** Comment geometry: lines and points *)

Section CommentGeometryMore.
Import Instructions Props.

Implicit Types (comment : list (list CommentPoint)) (line : list CommentPoint).

Lemma sentinel_count_cons p raw :
  sentinel_count (p :: raw)
  = ((if is_zero_point p then 1 else 0) + sentinel_count raw)%nat.
Proof.
  unfold sentinel_count. rewrite filter_cons.
  destruct (is_zero_point p); case_decide; done.
Qed.

Lemma DecodeComment_loop_length raw : forall comment line,
  length (DecodeComment_loop raw comment line)
  = (length comment + sentinel_count raw)%nat.
Proof.
  induction raw as [| p raw IH]; intros comment line; cbn [DecodeComment_loop].
  - unfold sentinel_count. cbn. lia.
  - rewrite sentinel_count_cons. destruct (is_zero_point p).
    + rewrite IH, length_app. cbn [length]. lia.
    + rewrite IH. lia.
Qed.

(** X17. [DecodeComments] returns one comment per raw comment, and a
    decoded comment has exactly as many lines as its raw comment has
    all-zero sentinel entries; a raw comment without sentinel decodes to a
    comment without lines. *)
Theorem DecodeComments_line_count (rawComments : list (list RawPoint)) :
  exists comments,
    DecodeComments rawComments = Some comments /\
    length comments = length rawComments /\
    forall i raw, rawComments !! i = Some raw ->
      exists c, comments !! i = Some c /\ length c = sentinel_count raw.
Proof.
  exists (map DecodeComment rawComments). split; [reflexivity |].
  split; [by rewrite length_map |].
  intros i raw Hi. exists (DecodeComment raw).
  split; [by rewrite list_lookup_fmap, Hi |].
  unfold DecodeComment. by rewrite DecodeComment_loop_length.
Qed.

Lemma byte_val_zero b : byte_val b = 0 -> b = x00.
Proof.
  unfold byte_val. intros H.
  assert (Hn : Byte.to_N b = Byte.to_N x00) by (change (Byte.to_N x00) with 0%N; lia).
  pose proof (Byte.of_to_N b) as Hb. rewrite Hn, Byte.of_to_N in Hb. by injection Hb.
Qed.

Lemma decode_point_proper (p : RawPoint) :
  is_zero_point p = false -> proper_point (decode_point p).
Proof.
  destruct p as [[[b0 b1] b2] b3]. intros Hnz.
  pose proof (byte_val_range b0). pose proof (byte_val_range b1).
  pose proof (byte_val_range b2). pose proof (byte_val_range b3).
  unfold proper_point, decode_point. cbn [X Y].
  change (2 ^ 8) with 256. change (2 ^ 16) with 65536.
  split; [lia |]. split; [lia |]. intros [HX HY].
  assert (b0 = x00) as -> by (apply byte_val_zero; lia).
  assert (b1 = x00) as -> by (apply byte_val_zero; lia).
  assert (b2 = x00) as -> by (apply byte_val_zero; lia).
  assert (b3 = x00) as -> by (apply byte_val_zero; lia).
  discriminate.
Qed.

Lemma DecodeComment_loop_proper raw : forall comment line,
  Forall (Forall proper_point) comment -> Forall proper_point line ->
  Forall (Forall proper_point) (DecodeComment_loop raw comment line).
Proof.
  induction raw as [| p raw IH]; intros comment line Hc Hl; cbn [DecodeComment_loop].
  - exact Hc.
  - destruct (is_zero_point p) eqn:Hz.
    + apply IH; [| constructor]. apply Forall_app. split; [exact Hc |].
      by constructor.
    + apply IH; [exact Hc |]. apply Forall_app. split; [exact Hl |].
      constructor; [| constructor]. by apply decode_point_proper.
Qed.

(** X18. Every point of every line of a comment that [DecodeComments]
    returns has coordinates in 0..65535 and is not the origin (0,0): an entry
    whose four bytes are zero is always taken as a line break, never as a
    point. *)
Theorem DecodeComments_points (rawComments : list (list RawPoint)) :
  exists comments,
    DecodeComments rawComments = Some comments /\
    Forall (Forall (Forall proper_point)) comments.
Proof.
  exists (map DecodeComment rawComments). split; [reflexivity |].
  apply Forall_fmap, Forall_forall. intros raw _.
  apply DecodeComment_loop_proper; constructor.
Qed.

End CommentGeometryMore.

(** ** Wrap *)

Section WrapProps.
Import Text Props.

Implicit Types (str builder : list Z).

Lemma Wrap_loop_builder str : forall width pos builder,
  Wrap_loop str width pos builder = builder ++ Wrap_loop str width pos [].
Proof.
  induction str as [| char rest IH]; intros width pos builder; cbn [Wrap_loop].
  - by rewrite app_nil_r.
  - destruct (char =? newline); [| destruct (pos >? width)].
    + rewrite (IH _ _ (builder ++ [char])), (IH _ _ ([] ++ [char])).
      by rewrite <- !app_assoc.
    + rewrite (IH _ _ ((builder ++ [newline]) ++ [char])),
        (IH _ _ (([] ++ [newline]) ++ [char])).
      by rewrite <- !app_assoc.
    + rewrite (IH _ _ (builder ++ [char])), (IH _ _ ([] ++ [char])).
      by rewrite <- !app_assoc.
Qed.

(** The loop without its accumulator. *)
Lemma Wrap_loop_cons char rest width pos :
  Wrap_loop (char :: rest) width pos []
  = if char =? newline then char :: Wrap_loop rest width 1 []
    else if pos >? width then newline :: char :: Wrap_loop rest width 2 []
    else char :: Wrap_loop rest width (pos + 1) [].
Proof.
  cbn [Wrap_loop]. destruct (char =? newline); [| destruct (pos >? width)].
  - by rewrite Wrap_loop_builder.
  - by rewrite Wrap_loop_builder.
  - by rewrite Wrap_loop_builder.
Qed.

Lemma visible_cons c l :
  visible (c :: l) = if c =? newline then visible l else c :: visible l.
Proof.
  unfold visible. rewrite filter_cons.
  destruct (Z.eqb_spec c newline); case_decide; done.
Qed.

Lemma Wrap_loop_visible str : forall width pos,
  visible (Wrap_loop str width pos []) = visible str.
Proof.
  induction str as [| char rest IH]; intros width pos; [done |].
  rewrite Wrap_loop_cons, (visible_cons char rest).
  destruct (char =? newline) eqn:Hc; [| destruct (pos >? width)].
  - by rewrite visible_cons, Hc, IH.
  - rewrite visible_cons. change (newline =? newline) with true. cbv iota.
    by rewrite visible_cons, Hc, IH.
  - by rewrite visible_cons, Hc, IH.
Qed.

Lemma Wrap_loop_sublist str : forall width pos,
  str `sublist_of` Wrap_loop str width pos [].
Proof.
  induction str as [| char rest IH]; intros width pos; [apply sublist_nil_l |].
  rewrite Wrap_loop_cons.
  destruct (char =? newline); [| destruct (pos >? width)].
  - apply sublist_skip, IH.
  - apply sublist_cons, sublist_skip, IH.
  - apply sublist_skip, IH.
Qed.

Lemma Wrap_loop_length str : forall width pos,
  (length str <= length (Wrap_loop str width pos []) <= 2 * length str)%nat.
Proof.
  induction str as [| char rest IH]; intros width pos; [cbn; lia |].
  rewrite Wrap_loop_cons.
  destruct (char =? newline); [| destruct (pos >? width)]; cbn [length].
  - specialize (IH width 1). lia.
  - specialize (IH width 2). lia.
  - specialize (IH width (pos + 1)). lia.
Qed.

(** X19. On sequences of runes (what [range] yields for the text and what
    [WriteRune] is given for the result; for a text that is valid UTF-8,
    the characters of the two strings), [Wrap] only inserts newlines: for
    every text and width, the runes of the result other than newlines are
    those of the text, in order; the runes of the text are a subsequence of
    those of the result; and the result has at most twice as many runes as
    the text. *)
Theorem Wrap_inserts_newlines_only (str : list Z) (width : Z) :
  visible (Wrap str width) = visible str /\
  str `sublist_of` Wrap str width /\
  (length str <= length (Wrap str width) <= 2 * length str)%nat.
Proof.
  unfold Wrap. split; [apply Wrap_loop_visible |].
  split; [apply Wrap_loop_sublist | apply Wrap_loop_length].
Qed.

Lemma Wrap_loop_lines str : forall width pos cur,
  0 <= width ->
  Z.of_nat (length cur) <= pos -> Z.of_nat (length cur) <= width + 1 ->
  Forall (fun ln => Z.of_nat (length ln) <= width + 1)
         (lines_from cur (Wrap_loop str width pos [])).
Proof.
  induction str as [| char rest IH]; intros width pos cur Hw Hpos Hcur.
  - cbn. by constructor.
  - rewrite Wrap_loop_cons.
    destruct (char =? newline) eqn:Hc; [| destruct (Z.gtb_spec pos width)].
    + cbn [lines_from]. rewrite Hc. constructor; [exact Hcur |].
      apply IH; cbn [length]; lia.
    + cbn [lines_from]. change (newline =? newline) with true. cbv iota.
      constructor; [exact Hcur |]. rewrite Hc. apply IH; cbn [app length]; lia.
    + cbn [lines_from]. rewrite Hc. apply IH; rewrite ?length_app; cbn [length]; lia.
Qed.

(** X20. For a width of at least 0, no line of the result of [Wrap] has
    more than [width + 1] runes. *)
Theorem Wrap_line_length (str : list Z) (width : Z) :
  0 <= width ->
  Forall (fun ln => Z.of_nat (length ln) <= width + 1) (lines (Wrap str width)).
Proof.
  intros Hw. unfold lines, Wrap. apply Wrap_loop_lines; cbn [length]; lia.
Qed.

Lemma Wrap_line_length_witness :
  Forall (fun ln => Z.of_nat (length ln) <= 2 + 1) (lines (Wrap sample_long 2)).
Proof. apply (Wrap_line_length sample_long 2). lia. Defined.

Example Wrap_sample : Wrap sample_long 2 = [97; 98; 99; 10; 100; 101; 10; 102; 103].
Proof. reflexivity. Qed.

Lemma Wrap_loop_again str : forall width pos pos',
  1 <= width -> pos' <= pos ->
  Wrap_loop (Wrap_loop str width pos []) width pos' [] = Wrap_loop str width pos [].
Proof.
  induction str as [| char rest IH]; intros width pos pos' Hw Hpos; [done |].
  rewrite Wrap_loop_cons.
  destruct (char =? newline) eqn:Hc; [| destruct (Z.gtb_spec pos width)].
  - rewrite Wrap_loop_cons, Hc. f_equal. apply IH; lia.
  - rewrite Wrap_loop_cons. change (newline =? newline) with true. cbv iota.
    rewrite Wrap_loop_cons, Hc.
    destruct (Z.gtb_spec 1 width); [lia |].
    do 2 f_equal. apply IH; lia.
  - rewrite Wrap_loop_cons, Hc.
    destruct (Z.gtb_spec pos' width); [lia |].
    f_equal. apply IH; lia.
Qed.

(** X21. For a width of at least 1, [Wrap] is idempotent: wrapping a
    wrapped text again at the same width changes nothing. *)
Theorem Wrap_idempotent (str : list Z) (width : Z) :
  1 <= width -> Wrap (Wrap str width) width = Wrap str width.
Proof. intros Hw. unfold Wrap. apply Wrap_loop_again; lia. Qed.

Lemma Wrap_idempotent_witness :
  Wrap (Wrap sample_long 2) 2 = Wrap sample_long 2.
Proof. apply (Wrap_idempotent sample_long 2). lia. Defined.

(** At width 0 the second pass breaks after every newline. *)
Example Wrap_width_0 :
  Wrap sample_lines 0 = [97; 10; 98; 10; 10; 99; 10; 100] /\
  Wrap (Wrap sample_lines 0) 0 <> Wrap sample_lines 0.
Proof. split; [reflexivity |]. vm_compute. discriminate. Qed.

Lemma lines_from_head cur l :
  exists ln rest, lines_from cur l = ln :: rest /\ (length cur <= length ln)%nat.
Proof.
  revert cur. induction l as [| c l IH]; intros cur; cbn [lines_from].
  - by exists cur, [].
  - destruct (c =? newline); [by exists cur, (lines_from [] l) |].
    destruct (IH (cur ++ [c])) as (ln & rest & -> & Hlen).
    exists ln, rest. split; [done |]. rewrite length_app in Hlen. lia.
Qed.

Lemma Wrap_loop_short_lines str : forall width pos cur,
  pos <= Z.of_nat (length cur) + 1 ->
  Forall (fun ln => Z.of_nat (length ln) <= width) (lines_from cur str) ->
  Wrap_loop str width pos [] = str.
Proof.
  induction str as [| char rest IH]; intros width pos cur Hpos Hall; [done |].
  rewrite Wrap_loop_cons. cbn [lines_from] in Hall.
  destruct (char =? newline) eqn:Hc.
  - apply Forall_cons in Hall as [_ Hall]. f_equal.
    apply (IH width 1 []); [cbn; lia | exact Hall].
  - destruct (lines_from_head (cur ++ [char]) rest) as (ln & rest' & Heq & Hlen).
    rewrite Heq in Hall. pose proof (Forall_inv Hall) as Hln. cbv beta in Hln.
    rewrite length_app in Hlen. cbn [length] in Hlen.
    destruct (Z.gtb_spec pos width); [lia |].
    f_equal. apply (IH width (pos + 1) (cur ++ [char])).
    + rewrite length_app. cbn [length]. lia.
    + by rewrite Heq.
Qed.

(** X22. When none of the lines of a text has more than [width] runes,
    [Wrap] writes to the result exactly the runes that [range] yields for
    the text: a text that is valid UTF-8 is left unchanged.  (A byte that is
    not valid UTF-8 is yielded as U+FFFD and written as that rune.) *)
Theorem Wrap_short_lines (str : list Z) (width : Z) :
  Forall (fun ln => Z.of_nat (length ln) <= width) (lines str) ->
  Wrap str width = str.
Proof.
  intros Hall. unfold Wrap. apply (Wrap_loop_short_lines str width 0 []); [cbn; lia |].
  exact Hall.
Qed.

Lemma Wrap_short_lines_witness : Wrap sample_lines 2 = sample_lines.
Proof.
  apply (Wrap_short_lines sample_lines 2).
  repeat constructor; cbn; lia.
Defined.

End WrapProps.

(** ** absInt *)

Section AbsInt.
Import Render.

Lemma shiftr_64_sign n :
  in_int64 n -> Z.shiftr n 64 = if n <? 0 then -1 else 0.
Proof.
  unfold in_int64. intros Hn. rewrite Z.shiftr_div_pow2 by lia.
  change (2 ^ 63) with 9223372036854775808 in Hn.
  change (2 ^ 64) with 18446744073709551616.
  destruct (Z.ltb_spec n 0).
  - symmetry. apply (Z.div_unique _ _ _ (n + 18446744073709551616)); lia.
  - apply Z.div_small. lia.
Qed.

(** X23. [absInt] returns the absolute value of every [int] except the
    least one, -2^63, which it returns unchanged. *)
Theorem absInt_abs (n : Z) :
  in_int64 n ->
  (- 2 ^ 63 < n -> absInt n = Z.abs n) /\
  (n = - 2 ^ 63 -> absInt n = - 2 ^ 63).
Proof.
  intros Hn. split.
  - intros Hmin. unfold absInt. rewrite (shiftr_64_sign n Hn). cbv zeta.
    unfold in_int64 in Hn. unfold int64_sub.
    destruct (Z.ltb_spec n 0).
    + rewrite Z.lxor_m1_r. unfold Z.lnot.
      rewrite int64_wrap_id by (unfold in_int64; lia). lia.
    + rewrite Z.lxor_0_r, int64_wrap_id by (unfold in_int64; lia). lia.
  - intros ->. vm_compute. reflexivity.
Qed.

Lemma absInt_abs_witness :
  (- 2 ^ 63 < -75 -> absInt (-75) = Z.abs (-75)) /\
  (-75 = - 2 ^ 63 -> absInt (-75) = - 2 ^ 63).
Proof. apply (absInt_abs (-75)). unfold in_int64. simpl. lia. Defined.

End AbsInt.

(** ** Decoding a profile *)

Section DecodeProfile.
Import Profile Instructions ProfileDecode Props.

Implicit Types (r reader : Reader).

Lemma Read_contents n r bs r' : Read n r = Some (bs, r') -> contents r' = contents r.
Proof. unfold Read. case_match; [| done]. by intros [= <- <-]. Qed.

Lemma DecodeInstructions_loop_contents n : forall buffer r instructions r',
  DecodeInstructions_loop n buffer r = Some (instructions, r') ->
  contents r' = contents r.
Proof.
  induction n as [| n IH]; intros buffer r instructions r'; cbn [DecodeInstructions_loop].
  - by intros [= <- <-].
  - destruct (Read 16 r) as [[bs r1]|] eqn:Hr; [| done]. cbv zeta.
    destruct (DecodeInstructions_loop n _ r1) as [[ins r2]|] eqn:Hl; [| done].
    intros [= <- <-]. apply IH in Hl. apply Read_contents in Hr. congruence.
Qed.

Lemma DecodeInstructions_contents r instructions r' :
  DecodeInstructions r = Some (instructions, r') -> contents r' = contents r.
Proof.
  unfold DecodeInstructions.
  destruct (read_uint32 r) as [[N r1]|] eqn:HN; [| done].
  intros Hl%DecodeInstructions_loop_contents.
  apply read_uint32_inv in HN as (_ & _ & ->). exact Hl.
Qed.

Lemma DecodeRawComment_contents_eq r comment r' :
  DecodeRawComment r = Some (comment, r') -> contents r' = contents r.
Proof.
  intros Hd. destruct (read_uint32 r) as [[K r1]|] eqn:HK.
  - by destruct (DecodeRawComment_offset _ _ _ _ _ HK Hd) as (_ & Hc & _).
  - unfold DecodeRawComment in Hd. by rewrite HK in Hd.
Qed.

Lemma DecodeRawComments_loop_contents n : forall r comments r',
  DecodeRawComments_loop n r = Some (comments, r') -> contents r' = contents r.
Proof.
  induction n as [| n IH]; intros r comments r'; cbn [DecodeRawComments_loop].
  - by intros [= <- <-].
  - destruct (DecodeRawComment r) as [[c r1]|] eqn:Hc; [| done].
    destruct (DecodeRawComments_loop n r1) as [[cs r2]|] eqn:Hl; [| done].
    intros [= <- <-]. apply IH in Hl. apply DecodeRawComment_contents_eq in Hc.
    congruence.
Qed.

Lemma DecodeRawComments_contents r comments r' :
  DecodeRawComments r = Some (comments, r') -> contents r' = contents r.
Proof.
  unfold DecodeRawComments.
  destruct (read_uint32 r) as [[M r1]|] eqn:HM; [| done].
  intros Hl%DecodeRawComments_loop_contents.
  apply read_uint32_inv in HM as (_ & _ & ->). exact Hl.
Qed.

Lemma Seek_start_eq r off : 0 <= off -> Seek_start r off = mkReader (contents r) off.
Proof. intros H. unfold Seek_start. destruct (Z.ltb_spec off 0); [lia | done]. Qed.

Lemma tab_start_range floorNumber tab :
  0 <= floorNumber < numFloors -> 0 <= tab < 3 ->
  0 <= TabStartAddr 1 floorNumber tab < 2 ^ 32.
Proof.
  unfold numFloors. intros Hf Ht. rewrite TabStartAddr_eq.
  rewrite int64_wrap_id
    by (unfold in_int64; change (2 ^ 63) with 9223372036854775808; lia).
  change (2 ^ 32) with 4294967296. lia.
Qed.

(** One tab, for any start of the floor from which the offsets are in
    range. *)
Lemma Decode_tab_at reader floor_start tab tab_start t reader' :
  tab_start
  = int64_add (int64_add floor_start FLOOR_HEADER_SIZE) (int64_mul FLOOR_TAB_SIZE tab) ->
  0 <= tab_start < 2 ^ 32 ->
  Decode_tab reader floor_start tab = Ok (t, reader') ->
  contents reader' = contents reader /\
  Tab_Offset t = 0 /\
  exists instructions r1 r2,
    DecodeInstructions (mkReader (contents reader) tab_start) = Some (instructions, r1) /\
    Disassemble instructions = Some (Code t) /\
    DecodeRawComments (mkReader (contents reader) (tab_start + 4100))
      = Some (RawComments t, r2) /\
    DecodeComments (RawComments t) = Some (Comments t).
Proof.
  intros Heq Hrange. unfold Decode_tab. rewrite <- Heq. clear Heq.
  assert (H32 : 2 ^ 32 = 4294967296) by reflexivity. rewrite H32 in Hrange.
  assert (Hadd : int64_add tab_start INSTRUCTIONS_SIZE = tab_start + 4100).
  { unfold int64_add, INSTRUCTIONS_SIZE. apply int64_wrap_id.
    unfold in_int64. assert (H63 : 2 ^ 63 = 9223372036854775808) by reflexivity.
    rewrite H63. lia. }
  rewrite Hadd, Seek_start_eq by lia. cbv zeta.
  destruct (DecodeInstructions _) as [[instructions r1]|] eqn:Hdi; [| done].
  destruct (Disassemble instructions) as [code|] eqn:Hdis; [| done].
  rewrite Seek_start_eq by lia.
  pose proof (DecodeInstructions_contents _ _ _ Hdi) as Hc1. cbn [contents] in Hc1.
  rewrite Hc1.
  destruct (DecodeRawComments _) as [[rawComments r2]|] eqn:Hrc; [| done].
  destruct (DecodeComments rawComments) as [comments|] eqn:Hcm; [| done].
  intros [= <- <-]. cbn [Tab_Offset Code RawComments Comments].
  pose proof (DecodeRawComments_contents _ _ _ Hrc) as Hc2. cbn [contents] in Hc2.
  split; [exact Hc2 |]. split; [reflexivity |].
  by exists instructions, r1, r2.
Qed.

(** X24. For a floor index and a tab of a profile, the body of the tab
    loop of [Decode], when it succeeds, stores for the tab what
    [DecodeInstructions] and [Disassemble] return at [TabStartAddr] of the
    floor index and tab, and what [DecodeRawComments] and [DecodeComments]
    return [INSTRUCTIONS_SIZE] bytes further; the field [Offset] of the tab
    is never set. *)
Theorem Decode_tab_reads_at_TabStartAddr reader floorNumber tab t reader' :
  0 <= floorNumber < numFloors -> 0 <= tab < 3 ->
  Decode_tab reader (FloorStartAddr 1 floorNumber) tab = Ok (t, reader') ->
  contents reader' = contents reader /\
  Tab_Offset t = 0 /\
  exists instructions r1 r2,
    DecodeInstructions (mkReader (contents reader) (TabStartAddr 1 floorNumber tab))
      = Some (instructions, r1) /\
    Disassemble instructions = Some (Code t) /\
    DecodeRawComments
      (mkReader (contents reader) (TabStartAddr 1 floorNumber tab + INSTRUCTIONS_SIZE))
      = Some (RawComments t, r2) /\
    DecodeComments (RawComments t) = Some (Comments t).
Proof.
  intros Hf Ht.
  apply (Decode_tab_at reader (FloorStartAddr 1 floorNumber) tab
           (TabStartAddr 1 floorNumber tab) t reader').
  - reflexivity.
  - by apply tab_start_range.
Qed.

Lemma Decode_tab_reads_at_TabStartAddr_witness :
  exists t reader',
    Decode_tab (mkReader sample_profile 0) (FloorStartAddr 1 0) 0 = Ok (t, reader') /\
    contents reader' = sample_profile /\
    Tab_Offset t = 0 /\
    exists instructions r1 r2,
      DecodeInstructions (mkReader sample_profile (TabStartAddr 1 0 0))
        = Some (instructions, r1) /\
      Disassemble instructions = Some (Code t) /\
      DecodeRawComments
        (mkReader sample_profile (TabStartAddr 1 0 0 + INSTRUCTIONS_SIZE))
        = Some (RawComments t, r2) /\
      DecodeComments (RawComments t) = Some (Comments t).
Proof.
  eexists _, _. split; [vm_compute; reflexivity |].
  apply (Decode_tab_reads_at_TabStartAddr (mkReader sample_profile 0) 0 0 _ _).
  - unfold numFloors. lia.
  - lia.
  - vm_compute. reflexivity.
Defined.





End DecodeProfile.
